(** * Verification of the [encryption] package of spv-wallet-web-backend

    The package stores a wallet secret under a password: [deriveKey] turns the
    passphrase into an AES-256 key with PBKDF2-HMAC-SHA256, [Encrypt] seals the
    plaintext with AES-GCM under a random 12-byte nonce and prints the envelope
    [hex(salt)-hex(iv)-hex(sealed)], and [Decrypt] parses such an envelope and
    opens it, answering the empty string on every failure.

    The three functions of [encryption/encrypt.go] are embedded below line by
    line.  The Go packages they call ([encoding/hex], [strings], [crypto/sha256],
    [crypto/hmac], [pbkdf2], [crypto/aes], [crypto/cipher], [crypto/rand]) are
    embedded as executable functions too, following the Go sources and the
    standards they implement (FIPS 180-4, RFC 2104, RFC 8018, FIPS 197,
    NIST SP 800-38D), and are checked against published test vectors. *)

From Stdlib Require Import ZArith List Bool Lia.
From Stdlib Require Import Strings.Byte.
From Stdlib Require Strings.String.
Import ListNotations.
Import String.StringSyntax.
Delimit Scope string_scope with string.
Local Open Scope Z_scope.

(** ** Go values *)

(** A Go [string] and a Go [[]byte] are both finite byte sequences; the
    conversions [[]byte(s)] and [string(b)] copy the bytes unchanged.  A [nil]
    slice and an empty slice are indistinguishable to every function used here
    (only [len] and the contents are read), so both are [[]]. *)
Definition bytes : Type := list byte.
Definition string : Type := list byte.

(** A Go string literal. *)
Definition lit (s : String.string) : string := String.list_byte_of_string s.
Arguments lit s%_string.

(** The [error] values that the functions below can produce. *)
Inductive error : Type :=
| ErrLength                      (* encoding/hex: odd length hex string *)
| InvalidByteError (b : byte)    (* encoding/hex: invalid byte *)
| KeySizeError (k : nat)         (* crypto/aes: invalid key size *)
| errGCMBlockSize                (* cipher: NewGCM requires 128-bit block cipher *)
| errOpen                        (* cipher: message authentication failed *)
| errRead (code : nat).          (* crypto/rand: the system gave no randomness *)

(** A Go call either returns or panics. *)
Inductive outcome (A : Type) : Type :=
| Returns (a : A)
| Panics (msg : String.string).
Arguments Returns {A} a.
Arguments Panics {A} msg%_string.

Definition bind {A B : Type} (c : outcome A) (k : A -> outcome B) : outcome B :=
  match c with
  | Returns a => k a
  | Panics msg => Panics msg
  end.

Notation "x <- c ;; k" := (bind c (fun x => k))
  (at level 61, c at next level, right associativity).

(** [byte(x)] and [int(b)]: conversion keeps the low eight bits. *)
Definition byte_to_Z (b : byte) : Z := Z.of_N (Byte.to_N b).

Definition byte_of_Z (z : Z) : byte :=
  match Byte.of_N (Z.to_N (z mod 256)) with
  | Some b => b
  | None => x00
  end.

Definition byte_xor (a b : byte) : byte :=
  byte_of_Z (Z.lxor (byte_to_Z a) (byte_to_Z b)).

(** [subtle.XORBytes] / [xorBytes]: xor over the common prefix. *)
Fixpoint xorBytes (a b : bytes) : bytes :=
  match a, b with
  | x :: a', y :: b' => byte_xor x y :: xorBytes a' b'
  | _, _ => []
  end.

Fixpoint bytes_eqb (a b : bytes) : bool :=
  match a, b with
  | [], [] => true
  | x :: a', y :: b' => Byte.eqb x y && bytes_eqb a' b'
  | _, _ => false
  end.

(** Big-endian integer of a byte sequence and back. *)
Definition be_to_Z (p : bytes) : Z :=
  fold_left (fun acc b => Z.lor (Z.shiftl acc 8) (byte_to_Z b)) p 0.

Fixpoint be_of_Z (n : nat) (z : Z) : bytes :=
  match n with
  | O => []
  | S n' => be_of_Z n' (Z.shiftr z 8) ++ [byte_of_Z z]
  end.

(** Cut a sequence into pieces of [n] bytes (the last one may be shorter). *)
Fixpoint chunks_fuel (fuel n : nat) (p : bytes) : list bytes :=
  match fuel with
  | O => []
  | S fuel' =>
      match p with
      | [] => []
      | _ => firstn n p :: chunks_fuel fuel' n (skipn n p)
      end
  end.

Definition chunks (n : nat) (p : bytes) : list bytes :=
  chunks_fuel (length p) n p.

(** ** Package encoding/hex *)
Module hex.

Definition hextable : string := lit "0123456789abcdef".

(** [func EncodeToString(src []byte) string] *)
Fixpoint EncodeToString (src : bytes) : string :=
  match src with
  | [] => []
  | v :: src' =>
      nth (Z.to_nat (Z.shiftr (byte_to_Z v) 4)) hextable x00
      :: nth (Z.to_nat (Z.land (byte_to_Z v) 15)) hextable x00
      :: EncodeToString src'
  end.

(** [func fromHexChar(c byte) (byte, bool)] *)
Definition fromHexChar (c : byte) : option Z :=
  let z := byte_to_Z c in
  if (48 <=? z) && (z <=? 57) then Some (z - 48)
  else if (97 <=? z) && (z <=? 102) then Some (z - 97 + 10)
  else if (65 <=? z) && (z <=? 70) then Some (z - 65 + 10)
  else None.

(** [func Decode(dst, src []byte) (int, error)]: the bytes written to [dst]
    before the error, and the error. *)
Fixpoint Decode (src : bytes) : bytes * option error :=
  match src with
  | [] => ([], None)
  | [p] =>
      match fromHexChar p with
      | None => ([], Some (InvalidByteError p))
      | Some _ => ([], Some ErrLength)
      end
  | p :: q :: rest =>
      match fromHexChar p with
      | None => ([], Some (InvalidByteError p))
      | Some a =>
          match fromHexChar q with
          | None => ([], Some (InvalidByteError q))
          | Some b =>
              let '(dst, err) := Decode rest in
              (byte_of_Z (Z.lor (Z.shiftl a 4) b) :: dst, err)
          end
      end
  end.

(** [func DecodeString(s string) ([]byte, error)] *)
Definition DecodeString (s : string) : bytes * option error := Decode s.

End hex.

(** ** Package strings *)
Module strings.

(** [func Split(s, sep string) []string] for a separator of one byte, the only
    kind the package passes.  The result always has at least one element and
    [Split("", sep)] is [[""]]. *)
Fixpoint Split (s : string) (sep : byte) : list string :=
  match s with
  | [] => [[]]
  | c :: s' =>
      if Byte.eqb c sep then [] :: Split s' sep
      else
        match Split s' sep with
        | cur :: more => (c :: cur) :: more
        | [] => [[c]]
        end
  end.

End strings.

(** ** Package hash *)
Module hash.

(** [type Hash interface]: what the callers below use of it.  [Sum data] is the
    digest of [data], that is [Reset(); Write(data); Sum(nil)]. *)
Record Hash : Type := {
  Size : nat;
  BlockSize : nat;
  Sum : bytes -> bytes
}.

End hash.

(** ** Package crypto/sha256 (FIPS 180-4) *)
Module sha256.

Definition Size : nat := 32.
Definition BlockSize : nat := 64.

(** [uint32] arithmetic wraps around. *)
Definition u32 (z : Z) : Z := Z.land z 0xFFFFFFFF.

(** [bits.RotateLeft32(x, -k)] *)
Definition rotr (x k : Z) : Z :=
  Z.lor (Z.shiftr x k) (u32 (Z.shiftl x (32 - k))).

Definition _K : list Z :=
  [0x428A2F98; 0x71374491; 0xB5C0FBCF; 0xE9B5DBA5; 0x3956C25B; 0x59F111F1;
   0x923F82A4; 0xAB1C5ED5; 0xD807AA98; 0x12835B01; 0x243185BE; 0x550C7DC3;
   0x72BE5D74; 0x80DEB1FE; 0x9BDC06A7; 0xC19BF174; 0xE49B69C1; 0xEFBE4786;
   0x0FC19DC6; 0x240CA1CC; 0x2DE92C6F; 0x4A7484AA; 0x5CB0A9DC; 0x76F988DA;
   0x983E5152; 0xA831C66D; 0xB00327C8; 0xBF597FC7; 0xC6E00BF3; 0xD5A79147;
   0x06CA6351; 0x14292967; 0x27B70A85; 0x2E1B2138; 0x4D2C6DFC; 0x53380D13;
   0x650A7354; 0x766A0ABB; 0x81C2C92E; 0x92722C85; 0xA2BFE8A1; 0xA81A664B;
   0xC24B8B70; 0xC76C51A3; 0xD192E819; 0xD6990624; 0xF40E3585; 0x106AA070;
   0x19A4C116; 0x1E376C08; 0x2748774C; 0x34B0BCB5; 0x391C0CB3; 0x4ED8AA4A;
   0x5B9CCA4F; 0x682E6FF3; 0x748F82EE; 0x78A5636F; 0x84C87814; 0x8CC70208;
   0x90BEFFFA; 0xA4506CEB; 0xBEF9A3F7; 0xC67178F2].

(** [type digest struct { h [8]uint32; ... }] *)
Record digest : Type := {
  h0 : Z; h1 : Z; h2 : Z; h3 : Z; h4 : Z; h5 : Z; h6 : Z; h7 : Z
}.

(** [func (d *digest) Reset()] *)
Definition init : digest :=
  {| h0 := 0x6A09E667; h1 := 0xBB67AE85; h2 := 0x3C6EF372; h3 := 0xA54FF53A;
     h4 := 0x510E527F; h5 := 0x9B05688C; h6 := 0x1F83D9AB; h7 := 0x5BE0CD19 |}.

(** The first loop of [blockGeneric]: sixteen big-endian words of the chunk. *)
Definition load (p : bytes) : list Z :=
  map (fun i => be_to_Z (firstn 4 (skipn (4 * i) p))) (seq 0 16).

(** The second loop: [w[i] = t1 + w[i-7] + t2 + w[i-16]] for [i] from 16. *)
Fixpoint extend (n i : nat) (w : list Z) : list Z :=
  match n with
  | O => w
  | S n' =>
      let v1 := nth (i - 2) w 0 in
      let t1 := Z.lxor (Z.lxor (rotr v1 17) (rotr v1 19)) (Z.shiftr v1 10) in
      let v2 := nth (i - 15) w 0 in
      let t2 := Z.lxor (Z.lxor (rotr v2 7) (rotr v2 18)) (Z.shiftr v2 3) in
      extend n' (S i) (w ++ [u32 (t1 + nth (i - 7) w 0 + t2 + nth (i - 16) w 0)])
  end.

(** The third loop: sixty-four rounds over the working variables. *)
Fixpoint rounds (kw : list (Z * Z)) (a b c d e f g h : Z) : digest :=
  match kw with
  | [] => {| h0 := a; h1 := b; h2 := c; h3 := d; h4 := e; h5 := f; h6 := g; h7 := h |}
  | (k, w) :: kw' =>
      let t1 := h + Z.lxor (Z.lxor (rotr e 6) (rotr e 11)) (rotr e 25)
                + Z.lxor (Z.land e f) (Z.land (Z.lxor e 0xFFFFFFFF) g) + k + w in
      let t2 := Z.lxor (Z.lxor (rotr a 2) (rotr a 13)) (rotr a 22)
                + Z.lxor (Z.lxor (Z.land a b) (Z.land a c)) (Z.land b c) in
      rounds kw' (u32 (t1 + t2)) a b c (u32 (d + t1)) e f g
  end.

(** One iteration of the outer loop of [blockGeneric]. *)
Definition block (dig : digest) (p : bytes) : digest :=
  let w := extend 48 16 (load p) in
  let r := rounds (combine _K w)
             (h0 dig) (h1 dig) (h2 dig) (h3 dig) (h4 dig) (h5 dig) (h6 dig) (h7 dig) in
  {| h0 := u32 (h0 dig + h0 r); h1 := u32 (h1 dig + h1 r);
     h2 := u32 (h2 dig + h2 r); h3 := u32 (h3 dig + h3 r);
     h4 := u32 (h4 dig + h4 r); h5 := u32 (h5 dig + h5 r);
     h6 := u32 (h6 dig + h6 r); h7 := u32 (h7 dig + h7 r) |}.

(** [checkSum]: a 1 bit, zero bits up to 56 bytes mod 64, and the length in
    bits as a big-endian [uint64]. *)
Definition padding (len : nat) : bytes :=
  let r := (len mod 64)%nat in
  let t := if (r <? 56)%nat then (56 - r)%nat else (64 + 56 - r)%nat in
  x80 :: repeat x00 (t - 1) ++ be_of_Z 8 (Z.of_nat len * 8).

(** [func Sum256(data []byte) [Size]byte] *)
Definition Sum256 (data : bytes) : bytes :=
  let d := fold_left block (chunks 64 (data ++ padding (length data))) init in
  be_of_Z 4 (h0 d) ++ be_of_Z 4 (h1 d) ++ be_of_Z 4 (h2 d) ++ be_of_Z 4 (h3 d) ++
  be_of_Z 4 (h4 d) ++ be_of_Z 4 (h5 d) ++ be_of_Z 4 (h6 d) ++ be_of_Z 4 (h7 d).

(** [func New() hash.Hash] *)
Definition New : hash.Hash :=
  {| hash.Size := Size; hash.BlockSize := BlockSize; hash.Sum := Sum256 |}.

End sha256.

(** ** Package crypto/hmac (RFC 2104) *)
Module hmac.

(** The key block of [New]: a key longer than the block is hashed first, then
    the key is copied into a zeroed block ([make] followed by [copy]). *)
Definition keyBlock (h : hash.Hash) (key : bytes) : bytes :=
  let blocksize := hash.BlockSize h in
  let key := if (blocksize <? length key)%nat then hash.Sum h key else key in
  firstn blocksize (key ++ repeat x00 blocksize).

(** [func New(h func() hash.Hash, key []byte) hash.Hash]: the inner hash runs
    over [ipad] and the data, the outer one over [opad] and the inner sum. *)
Definition New (h : hash.Hash) (key : bytes) : hash.Hash :=
  let kb := keyBlock h key in
  let ipad := map (fun b => byte_xor b x36) kb in
  let opad := map (fun b => byte_xor b x5c) kb in
  {| hash.Size := hash.Size h;
     hash.BlockSize := hash.BlockSize h;
     hash.Sum := fun data => hash.Sum h (opad ++ hash.Sum h (ipad ++ data)) |}.

End hmac.

(** ** Package github.com/xdg-go/pbkdf2 (RFC 8018) *)
Module pbkdf2.

(** The inner loop [for n := 2; n <= iter; n++]: [U = PRF(U); T ^= U]. *)
Fixpoint iterate (prf : hash.Hash) (n : nat) (U T : bytes) : bytes :=
  match n with
  | O => T
  | S n' =>
      let U' := hash.Sum prf U in
      iterate prf n' U' (xorBytes T U')
  end.

(** One turn of the outer loop: block number [blk] of the derived key. *)
Definition F (prf : hash.Hash) (salt : bytes) (iter : nat) (blk : nat) : bytes :=
  let T := hash.Sum prf (salt ++ be_of_Z 4 (Z.of_nat blk)) in
  iterate prf (iter - 1) T T.

(** [func Key(password, salt []byte, iter, keyLen int, h func() hash.Hash) []byte] *)
Definition Key (password salt : bytes) (iter keyLen : nat) (h : hash.Hash) : bytes :=
  let prf := hmac.New h password in
  let hashLen := hash.Size prf in
  let numBlocks := ((keyLen + hashLen - 1) / hashLen)%nat in
  let dk := flat_map (fun blk => F prf salt iter blk) (seq 1 numBlocks) in
  firstn keyLen dk.

End pbkdf2.

(** ** Package crypto/cipher: the Block interface *)
Module cipher.

(** [type Block interface].  [Encrypt src] is the encryption of the first
    block of [src]; the callers below always pass a 16-byte array. *)
Record Block : Type := {
  BlockSize : nat;
  Encrypt : bytes -> bytes
}.

End cipher.

(** ** Package crypto/aes (FIPS 197) *)
Module aes.

Definition BlockSize : nat := 16.

(** FIPS 197 figure 7, the table [sbox0] of [crypto/aes/const.go]. *)
Definition sbox0 : list Z :=
  [0x63; 0x7C; 0x77; 0x7B; 0xF2; 0x6B; 0x6F; 0xC5; 0x30; 0x01; 0x67; 0x2B;
   0xFE; 0xD7; 0xAB; 0x76; 0xCA; 0x82; 0xC9; 0x7D; 0xFA; 0x59; 0x47; 0xF0;
   0xAD; 0xD4; 0xA2; 0xAF; 0x9C; 0xA4; 0x72; 0xC0; 0xB7; 0xFD; 0x93; 0x26;
   0x36; 0x3F; 0xF7; 0xCC; 0x34; 0xA5; 0xE5; 0xF1; 0x71; 0xD8; 0x31; 0x15;
   0x04; 0xC7; 0x23; 0xC3; 0x18; 0x96; 0x05; 0x9A; 0x07; 0x12; 0x80; 0xE2;
   0xEB; 0x27; 0xB2; 0x75; 0x09; 0x83; 0x2C; 0x1A; 0x1B; 0x6E; 0x5A; 0xA0;
   0x52; 0x3B; 0xD6; 0xB3; 0x29; 0xE3; 0x2F; 0x84; 0x53; 0xD1; 0x00; 0xED;
   0x20; 0xFC; 0xB1; 0x5B; 0x6A; 0xCB; 0xBE; 0x39; 0x4A; 0x4C; 0x58; 0xCF;
   0xD0; 0xEF; 0xAA; 0xFB; 0x43; 0x4D; 0x33; 0x85; 0x45; 0xF9; 0x02; 0x7F;
   0x50; 0x3C; 0x9F; 0xA8; 0x51; 0xA3; 0x40; 0x8F; 0x92; 0x9D; 0x38; 0xF5;
   0xBC; 0xB6; 0xDA; 0x21; 0x10; 0xFF; 0xF3; 0xD2; 0xCD; 0x0C; 0x13; 0xEC;
   0x5F; 0x97; 0x44; 0x17; 0xC4; 0xA7; 0x7E; 0x3D; 0x64; 0x5D; 0x19; 0x73;
   0x60; 0x81; 0x4F; 0xDC; 0x22; 0x2A; 0x90; 0x88; 0x46; 0xEE; 0xB8; 0x14;
   0xDE; 0x5E; 0x0B; 0xDB; 0xE0; 0x32; 0x3A; 0x0A; 0x49; 0x06; 0x24; 0x5C;
   0xC2; 0xD3; 0xAC; 0x62; 0x91; 0x95; 0xE4; 0x79; 0xE7; 0xC8; 0x37; 0x6D;
   0x8D; 0xD5; 0x4E; 0xA9; 0x6C; 0x56; 0xF4; 0xEA; 0x65; 0x7A; 0xAE; 0x08;
   0xBA; 0x78; 0x25; 0x2E; 0x1C; 0xA6; 0xB4; 0xC6; 0xE8; 0xDD; 0x74; 0x1F;
   0x4B; 0xBD; 0x8B; 0x8A; 0x70; 0x3E; 0xB5; 0x66; 0x48; 0x03; 0xF6; 0x0E;
   0x61; 0x35; 0x57; 0xB9; 0x86; 0xC1; 0x1D; 0x9E; 0xE1; 0xF8; 0x98; 0x11;
   0x69; 0xD9; 0x8E; 0x94; 0x9B; 0x1E; 0x87; 0xE9; 0xCE; 0x55; 0x28; 0xDF;
   0x8C; 0xA1; 0x89; 0x0D; 0xBF; 0xE6; 0x42; 0x68; 0x41; 0x99; 0x2D; 0x0F;
   0xB0; 0x54; 0xBB; 0x16].

Definition sub (b : Z) : Z := nth (Z.to_nat b) sbox0 0.

(** [powx]: the powers of x in GF(2^8), the round constants. *)
Definition powx : list Z :=
  [0x01; 0x02; 0x04; 0x08; 0x10; 0x20; 0x40; 0x80; 0x1B; 0x36; 0x6C; 0xD8;
   0xAB; 0x4D; 0x9A; 0x2F].

(** [func subw(w uint32) uint32]: the S-box on each byte of a word. *)
Definition subw (w : Z) : Z :=
  Z.lor (Z.lor (Z.shiftl (sub (Z.shiftr w 24)) 24)
               (Z.shiftl (sub (Z.land (Z.shiftr w 16) 255)) 16))
        (Z.lor (Z.shiftl (sub (Z.land (Z.shiftr w 8) 255)) 8)
               (sub (Z.land w 255))).

(** [func rotw(w uint32) uint32] *)
Definition rotw (w : Z) : Z :=
  Z.lor (Z.land (Z.shiftl w 8) 0xFFFFFFFF) (Z.shiftr w 24).

(** The second loop of [expandKeyGo], from word [i] on, [n] more words. *)
Fixpoint expandLoop (n i nk : nat) (enc : list Z) : list Z :=
  match n with
  | O => enc
  | S n' =>
      let t := nth (i - 1) enc 0 in
      let t :=
        if (i mod nk =? 0)%nat
        then Z.lxor (subw (rotw t)) (Z.shiftl (nth (i / nk - 1) powx 0) 24)
        else if (6 <? nk)%nat && (i mod nk =? 4)%nat then subw t
        else t in
      expandLoop n' (S i) nk (enc ++ [Z.lxor (nth (i - nk) enc 0) t])
  end.

(** [func expandKeyGo(key []byte, enc, dec []uint32)], the encryption half;
    [NewCipher] allocates [enc] with [len(key) + 28] words. *)
Definition expandKey (key : bytes) : list Z :=
  let nk := (length key / 4)%nat in
  let first := map (fun i => be_to_Z (firstn 4 (skipn (4 * i) key))) (seq 0 nk) in
  expandLoop (length key + 28 - nk) nk nk first.

(** Multiplication by x in GF(2^8). *)
Definition xtime (b : Z) : Z :=
  let s := Z.shiftl b 1 in
  if Z.testbit b 7 then Z.lxor s 0x11B else s.

(** The four round transformations on a state of sixteen bytes, stored column
    after column as in the input block. *)
Definition SubBytes (st : list Z) : list Z := map sub st.

Definition ShiftRows (st : list Z) : list Z :=
  map (fun i => nth i st 0) [0; 5; 10; 15; 4; 9; 14; 3; 8; 13; 2; 7; 12; 1; 6; 11]%nat.

Definition mixColumn (a0 a1 a2 a3 : Z) : list Z :=
  [Z.lxor (Z.lxor (xtime a0) (Z.lxor (xtime a1) a1)) (Z.lxor a2 a3);
   Z.lxor (Z.lxor a0 (xtime a1)) (Z.lxor (Z.lxor (xtime a2) a2) a3);
   Z.lxor (Z.lxor a0 a1) (Z.lxor (xtime a2) (Z.lxor (xtime a3) a3));
   Z.lxor (Z.lxor (Z.lxor (xtime a0) a0) a1) (Z.lxor a2 (xtime a3))].

Definition MixColumns (st : list Z) : list Z :=
  flat_map (fun c => mixColumn (nth (4 * c) st 0) (nth (4 * c + 1) st 0)
                               (nth (4 * c + 2) st 0) (nth (4 * c + 3) st 0))
           (seq 0 4).

(** Round key number [r]: four words of the schedule, as sixteen bytes. *)
Definition roundKey (enc : list Z) (r : nat) : list Z :=
  flat_map (fun c => let w := nth (4 * r + c) enc 0 in
                     [Z.shiftr w 24; Z.land (Z.shiftr w 16) 255;
                      Z.land (Z.shiftr w 8) 255; Z.land w 255])
           (seq 0 4).

Definition AddRoundKey (enc : list Z) (r : nat) (st : list Z) : list Z :=
  map (fun i => Z.lxor (nth i st 0) (nth i (roundKey enc r) 0)) (seq 0 16).

(** The middle rounds [1 .. nr-1]. *)
Fixpoint middle (enc : list Z) (n r : nat) (st : list Z) : list Z :=
  match n with
  | O => st
  | S n' => middle enc n' (S r) (AddRoundKey enc r (MixColumns (ShiftRows (SubBytes st))))
  end.

(** [func encryptBlockGo(xk []uint32, dst, src []byte)] *)
Definition encryptBlock (enc : list Z) (src : bytes) : bytes :=
  let nr := (length enc / 4 - 1)%nat in
  let st := map (fun i => byte_to_Z (nth i src x00)) (seq 0 16) in
  let st := AddRoundKey enc 0 st in
  let st := middle enc (nr - 1) 1 st in
  map byte_of_Z (AddRoundKey enc nr (ShiftRows (SubBytes st))).

(** [func NewCipher(key []byte) (cipher.Block, error)] *)
Definition NewCipher (key : bytes) : cipher.Block + error :=
  let k := length key in
  if (k =? 16)%nat || (k =? 24)%nat || (k =? 32)%nat then
    let enc := expandKey key in
    inl {| cipher.BlockSize := BlockSize; cipher.Encrypt := encryptBlock enc |}
  else inr (KeySizeError k).

End aes.

(** ** Package crypto/cipher: Galois counter mode (NIST SP 800-38D) *)
Module gcm.

Definition gcmBlockSize : nat := 16.
Definition gcmTagSize : nat := 16.
Definition gcmMinimumTagSize : nat := 12.
Definition gcmStandardNonceSize : nat := 12.

(** [type gcm struct { cipher Block; nonceSize int; tagSize int; ... }] *)
Record gcm : Type := {
  cipher : cipher.Block;
  nonceSize : nat;
  tagSize : nat
}.

(** [func NewGCM(cipher Block) (AEAD, error)] *)
Definition NewGCM (b : cipher.Block) : gcm + error :=
  if (cipher.BlockSize b =? gcmBlockSize)%nat then
    inl {| cipher := b; nonceSize := gcmStandardNonceSize; tagSize := gcmTagSize |}
  else inr errGCMBlockSize.

(** A field element of GF(2^128) is the big-endian integer of its block, so
    the leftmost bit of the standard is bit 127.  [mulLoop] is algorithm 1 of
    the standard: [z] accumulates, [v] is shifted right and reduced by
    [R = 11100001 || 0^120]. *)
Fixpoint mulLoop (n : nat) (x z v : Z) : Z :=
  match n with
  | O => z
  | S n' =>
      let z' := if Z.testbit x (Z.of_nat n') then Z.lxor z v else z in
      let v' := if Z.testbit v 0
                then Z.lxor (Z.shiftr v 1) (Z.shiftl 0xE1 120)
                else Z.shiftr v 1 in
      mulLoop n' x z' v'
  end.

Definition mul (x y : Z) : Z := mulLoop 128 x 0 y.

(** [func (g *gcm) updateBlocks] then the zero-padded partial block of
    [update]: fold the blocks of [data] into [y]. *)
Definition update (H : Z) (y : Z) (data : bytes) : Z :=
  fold_left (fun y blk => mul (Z.lxor y (be_to_Z (firstn 16 (blk ++ repeat x00 16)))) H)
            (chunks 16 data) y.

(** [func (g *gcm) auth(out, ciphertext, additionalData, tagMask)] *)
Definition auth (g : gcm) (ciphertext additionalData tagMask : bytes) : bytes :=
  let H := be_to_Z (cipher.Encrypt (cipher g) (repeat x00 16)) in
  let y := update H 0 additionalData in
  let y := update H y ciphertext in
  let lens := Z.lor (Z.shiftl (Z.of_nat (length additionalData) * 8) 64)
                    (Z.of_nat (length ciphertext) * 8) in
  let y := mul (Z.lxor y lens) H in
  xorBytes (be_of_Z 16 y) tagMask.

(** [func gcmInc32(counterBlock *[16]byte)] *)
Definition gcmInc32 (counter : bytes) : bytes :=
  firstn 12 counter ++ be_of_Z 4 (be_to_Z (skipn 12 counter) + 1).

(** [func (g *gcm) deriveCounter] for a nonce of the standard size. *)
Definition deriveCounter (nonce : bytes) : bytes :=
  nonce ++ [x00; x00; x00; x01].

(** [func (g *gcm) counterCrypt(out, in []byte, counter *[16]byte)] *)
Fixpoint counterCrypt_fuel (fuel : nat) (g : gcm) (input counter : bytes) : bytes :=
  match fuel with
  | O => []
  | S fuel' =>
      match input with
      | [] => []
      | _ =>
          let mask := cipher.Encrypt (cipher g) counter in
          xorBytes (firstn gcmBlockSize input) mask
          ++ counterCrypt_fuel fuel' g (skipn gcmBlockSize input) (gcmInc32 counter)
      end
  end.

Definition counterCrypt (g : gcm) (input counter : bytes) : bytes :=
  counterCrypt_fuel (length input) g input counter.

(** Largest plaintext of one call: [((1<<32)-2) * BlockSize] bytes. *)
Definition maxPlaintext : Z := (2 ^ 32 - 2) * 16.

(** [func (g *gcm) Seal(dst, nonce, plaintext, data []byte) []byte] with
    [dst = nil]. *)
Definition Seal (g : gcm) (nonce plaintext data : bytes) : outcome bytes :=
  if negb (length nonce =? nonceSize g)%nat then
    Panics "crypto/cipher: incorrect nonce length given to GCM"
  else if (nonceSize g =? 0)%nat then
    Panics "crypto/cipher: incorrect GCM nonce size"
  else if maxPlaintext <? Z.of_nat (length plaintext) then
    Panics "crypto/cipher: message too large for GCM"
  else
    let counter := deriveCounter nonce in
    let tagMask := cipher.Encrypt (cipher g) counter in
    let out := counterCrypt g plaintext (gcmInc32 counter) in
    let tag := auth g out data tagMask in
    Returns (out ++ tag).

(** [func (g *gcm) Open(dst, nonce, ciphertext, data []byte) ([]byte, error)]
    with [dst = nil]. *)
Definition Open (g : gcm) (nonce ciphertext data : bytes) : outcome (bytes * option error) :=
  if negb (length nonce =? nonceSize g)%nat then
    Panics "crypto/cipher: incorrect nonce length given to GCM"
  else if (tagSize g <? gcmMinimumTagSize)%nat then
    Panics "crypto/cipher: incorrect GCM tag size"
  else if (length ciphertext <? tagSize g)%nat then
    Returns ([], Some errOpen)
  else if maxPlaintext + Z.of_nat (tagSize g) <? Z.of_nat (length ciphertext) then
    Returns ([], Some errOpen)
  else
    let tag := skipn (length ciphertext - tagSize g) ciphertext in
    let ciphertext := firstn (length ciphertext - tagSize g) ciphertext in
    let counter := deriveCounter nonce in
    let tagMask := cipher.Encrypt (cipher g) counter in
    let expectedTag := auth g ciphertext data tagMask in
    if negb (bytes_eqb (firstn (tagSize g) expectedTag) tag) then
      Returns ([], Some errOpen)
    else
      Returns (counterCrypt g ciphertext (gcmInc32 counter), None).

End gcm.

(** ** Package crypto/rand *)
Module rand.

(** The system's randomness as the program sees it: either the source fails,
    or it supplies a stream of bytes, any stream. *)
Inductive Reader : Type :=
| Fails (e : error)
| Supplies (src : nat -> byte).

(** [func Read(b []byte) (n int, err error)]: the buffer after the call, and
    the error.  Without error the whole buffer is filled. *)
Definition Read (r : Reader) (b : bytes) : bytes * option error :=
  match r with
  | Fails e => (b, Some e)
  | Supplies src => (map src (seq 0 (length b)), None)
  end.

End rand.

(** ** Package encryption (encryption/encrypt.go) *)
Module encryption.

(** [func deriveKey(passphrase string, salt []byte) ([]byte, []byte)] *)
Definition deriveKey (passphrase : string) (salt : bytes) : bytes * bytes :=
  (pbkdf2.Key passphrase salt 1000 32 sha256.New, salt).

(** [func Encrypt(passphrase, plaintext string) (string, error)], with the
    randomness source of the call as a parameter. *)
Definition Encrypt (rnd : rand.Reader) (passphrase plaintext : string)
  : outcome (string * option error) :=
  let '(key, salt) := deriveKey passphrase [] in
  let iv := repeat x00 12 in
  let '(iv, err) := rand.Read rnd iv in
  match err with
  | Some e => Returns ([], Some e)
  | None =>
      match aes.NewCipher key with
      | inr e => Returns ([], Some e)
      | inl b =>
          match gcm.NewGCM b with
          | inr e => Returns ([], Some e)
          | inl aesgcm =>
              data <- gcm.Seal aesgcm iv plaintext [] ;;
              Returns (hex.EncodeToString salt ++ lit "-" ++ hex.EncodeToString iv
                       ++ lit "-" ++ hex.EncodeToString data, None)
          end
      end
  end.

(** [func Decrypt(passphrase, ciphertext string) string] *)
Definition Decrypt (passphrase ciphertext : string) : outcome string :=
  let arr := strings.Split ciphertext "-"%byte in
  if negb (length arr =? 3)%nat then Returns []
  else
    let '(salt, err) := hex.DecodeString (nth 0 arr []) in
    match err with
    | Some _ => Returns []
    | None =>
        let '(iv, err) := hex.DecodeString (nth 1 arr []) in
        match err with
        | Some _ => Returns []
        | None =>
            if negb (length iv =? 12)%nat then Returns []
            else
              let '(data, err) := hex.DecodeString (nth 2 arr []) in
              match err with
              | Some _ => Returns []
              | None =>
                  let '(key, _) := deriveKey passphrase salt in
                  match aes.NewCipher key with
                  | inr _ => Returns []
                  | inl b =>
                      match gcm.NewGCM b with
                      | inr _ => Returns []
                      | inl aesgcm =>
                          r <- gcm.Open aesgcm iv data [] ;;
                          let '(data, err) := r in
                          match err with
                          | Some _ => Returns []
                          | None => Returns data
                          end
                      end
                  end
              end
        end
    end.

(** Modelled from the spec: [Hash], whose file (encryption/hash.go) is not
    among the sources; only its fuzz test is.  The spec has it compute the
    SHA-256 digest of the input's bytes and print the 32 bytes as 64 lowercase
    hexadecimal characters, with an error that never occurs for a digest
    engine that can be constructed. *)
Definition Hash (input : string) : string * option error :=
  (hex.EncodeToString (sha256.Sum256 input), None).

End encryption.

(** ** Package encryption_test (tests/unit/encryption/fuzz_test.go) *)
Module encryption_test.

(** How a run of a fuzz target ends: [t.Errorf] and a failed [require] both
    mark the run as failed. *)
Inductive verdict : Type :=
| Pass
| Fail (msg : String.string).
Arguments Fail msg%_string.

(** The body of the target of [FuzzEncryptDecryptRoundTrip] on one fuzzed
    pair, with the randomness source of the [Encrypt] call as a parameter.
    A panic is recovered by the deferred function and reported. *)
Definition FuzzEncryptDecryptRoundTrip (rnd : rand.Reader) (passphrase plaintext : string)
  : verdict :=
  match encryption.Encrypt rnd passphrase plaintext with
  | Panics _ => Fail "Round-trip panicked"
  | Returns (_, Some _) => Pass
  | Returns (encrypted, None) =>
      match encryption.Decrypt passphrase encrypted with
      | Panics _ => Fail "Round-trip panicked"
      | Returns decrypted =>
          if negb (bytes_eqb plaintext decrypted) then Fail "Round-trip failed"
          else
            match encryption.Decrypt (lit "wrong-passphrase-12345") encrypted with
            | Panics _ => Fail "Round-trip panicked"
            | Returns wrongDecrypted =>
                if negb (bytes_eqb plaintext [])
                then
                  if bytes_eqb plaintext wrongDecrypted
                  then Fail "Decryption with wrong passphrase should not recover plaintext"
                  else Pass
                else Pass
            end
      end
  end.

End encryption_test.

(** ** Package spvwallet (transports/spvwallet, metadata helpers) *)
Module spvwallet.

(** A value of type [interface{}] as JSON decoding leaves it in a metadata
    map: [nil], a [string], a [map[string]interface{}], or a value of some
    other dynamic type (number, boolean, slice). *)
#[warnings="-register-all"] Inductive value : Type :=
| VNil
| VString (s : string)
| VMap (m : list (string * value))
| VOther.

(** [m[key]] on a [map[string]interface{}]: a missing key reads as [nil]. *)
Fixpoint index (m : list (string * value)) (key : string) : value :=
  match m with
  | [] => VNil
  | (k, v) :: m' => if bytes_eqb k key then v else index m' key
  end.

(** [v != nil] *)
Definition notNil (v : value) : bool :=
  match v with
  | VNil => false
  | _ => true
  end.

(** [v.(string)] *)
Definition assertString (v : value) : outcome string :=
  match v with
  | VString s => Returns s
  | _ => Panics "interface conversion: interface {} is not string"
  end.

(** [v.(map[string]interface{})] *)
Definition assertMap (v : value) : outcome (list (string * value)) :=
  match v with
  | VMap m => Returns m
  | _ => Panics "interface conversion: interface {} is not map[string]interface {}"
  end.

(** The two fields of [response.Transaction] that the function reads.  A
    [nil] metadata map is [None]. *)
Record Transaction : Type := {
  Metadata : option (list (string * value));
  TransactionDirection : string
}.

(** [func GetPaymailsFromMetadata(transaction *response.Transaction,
    fallbackPaymail string) (string, string)] *)
Definition GetPaymailsFromMetadata
    (transaction : option Transaction) (fallbackPaymail : string)
  : outcome (string * string) :=
  let senderPaymail : string := [] in
  let receiverPaymail : string := [] in
  match transaction with
  | None => Returns (senderPaymail, receiverPaymail)
  | Some transaction =>
      found <-
        match Metadata transaction with
        | None => Returns (senderPaymail, receiverPaymail)
        | Some metadata =>
            senderPaymail <-
              (if notNil (index metadata (lit "sender"))
               then assertString (index metadata (lit "sender"))
               else Returns senderPaymail) ;;
            receiverPaymail <-
              (if notNil (index metadata (lit "receiver"))
               then assertString (index metadata (lit "receiver"))
               else Returns receiverPaymail) ;;
            senderPaymail <-
              (if bytes_eqb senderPaymail []
               then
                 if notNil (index metadata (lit "p2p_tx_metadata"))
                 then
                   p2pTxMetadata <- assertMap (index metadata (lit "p2p_tx_metadata")) ;;
                   if notNil (index p2pTxMetadata (lit "sender"))
                   then assertString (index p2pTxMetadata (lit "sender"))
                   else Returns senderPaymail
                 else Returns senderPaymail
               else Returns senderPaymail) ;;
            Returns (senderPaymail, receiverPaymail)
        end ;;
      let '(senderPaymail, receiverPaymail) := found in
      if bytes_eqb (TransactionDirection transaction) (lit "incoming")
         && bytes_eqb receiverPaymail []
      then Returns (senderPaymail, fallbackPaymail)
      else if bytes_eqb (TransactionDirection transaction) (lit "outgoing")
              && bytes_eqb senderPaymail []
      then Returns (fallbackPaymail, receiverPaymail)
      else Returns (senderPaymail, receiverPaymail)
  end.

End spvwallet.

(** ** Package rates (domain/rates/rates_service.go) *)
Module rates.

(** [time.Duration] is an [int64] of nanoseconds; [Time.Sub] saturates. *)
Definition minDuration : Z := - 2 ^ 63.
Definition maxDuration : Z := 2 ^ 63 - 1.

(** [time.Since(t)] when the clock reads [now]; both are readings of the
    monotonic clock in nanoseconds. *)
Definition Since (now t : Z) : Z :=
  Z.max minDuration (Z.min maxDuration (now - t)).

Section Service.

(** The type [float64] of a rate, which the service only stores and hands
    out, and the type of the errors that a fetch can end in. *)
Variable float64 : Type.
Variable fetchError : Type.

(** [type Service struct]: the cached rate ([nil] before the first successful
    fetch) and the time of the last successful fetch.  The mutex is held for
    the whole of [loadExchangeRate], which therefore runs as one step. *)
Record Service : Type := {
  exchangeRate : option float64;
  lastFetch : Z
}.

(** [func (s *Service) useCachedValue() bool], with the configured TTL and
    the clock reading of [time.Since]. *)
Definition useCachedValue (ttl now : Z) (s : Service) : bool :=
  match exchangeRate s with
  | Some _ => Since now (lastFetch s) <? ttl
  | None => false
  end.

(** [func (s *Service) loadExchangeRate() error].  [fetch] is what
    [fetchExchangeRate] returns if it is called (the rate of the endpoint's
    answer, or an error), and [fetchedAt] is the reading of [time.Now()]
    after it.  The result is the service afterwards and the error. *)
Definition loadExchangeRate
    (ttl now : Z) (fetch : float64 + fetchError) (fetchedAt : Z) (s : Service)
  : Service * option fetchError :=
  if useCachedValue ttl now s then (s, None)
  else
    match fetch with
    | inr err => (s, Some err)
    | inl rate => ({| exchangeRate := Some rate; lastFetch := fetchedAt |}, None)
    end.

(** [func (s *Service) GetExchangeRate()], which returns a [*float64] ([nil]
    is [None]) and an [error]. *)
Definition GetExchangeRate
    (ttl now : Z) (fetch : float64 + fetchError) (fetchedAt : Z) (s : Service)
  : Service * (option float64 * option fetchError) :=
  let '(s', err) := loadExchangeRate ttl now fetch fetchedAt s in
  match err with
  | Some e => (s', (None, Some e))
  | None => (s', (exchangeRate s', None))
  end.

(** [func NewRatesService(log *zerolog.Logger) *Service]: the service, and
    the error that was logged, if any. *)
Definition NewRatesService
    (ttl now : Z) (fetch : float64 + fetchError) (fetchedAt : Z)
  : Service * option fetchError :=
  let s := {| exchangeRate := None; lastFetch := 0 |} in
  loadExchangeRate ttl now fetch fetchedAt s.

(** A run of calls to [GetExchangeRate], each with its clock readings and
    the answer its fetch would get: the service afterwards and the results. *)
Fixpoint GetExchangeRates
    (ttl : Z) (calls : list (Z * (float64 + fetchError) * Z)) (s : Service)
  : Service * list (option float64 * option fetchError) :=
  match calls with
  | [] => (s, [])
  | (now, fetch, fetchedAt) :: calls' =>
      let '(s', r) := GetExchangeRate ttl now fetch fetchedAt s in
      let '(s'', rs) := GetExchangeRates ttl calls' s' in
      (s'', r :: rs)
  end.

End Service.

Arguments exchangeRate {float64} s.
Arguments lastFetch {float64} s.
Arguments useCachedValue {float64} ttl now s.
Arguments loadExchangeRate {float64 fetchError} ttl now fetch fetchedAt s.
Arguments GetExchangeRate {float64 fetchError} ttl now fetch fetchedAt s.
Arguments NewRatesService {float64 fetchError} ttl now fetch fetchedAt.
Arguments GetExchangeRates {float64 fetchError} ttl calls s.

End rates.

(** ** Vocabulary of the properties *)

(** A hexadecimal digit, and a lowercase one. *)
Definition isHexDigit (c : byte) : bool :=
  let z := byte_to_Z c in
  ((48 <=? z) && (z <=? 57)) || ((97 <=? z) && (z <=? 102)) || ((65 <=? z) && (z <=? 70)).

Definition isLowerHexDigit (c : byte) : bool :=
  let z := byte_to_Z c in
  ((48 <=? z) && (z <=? 57)) || ((97 <=? z) && (z <=? 102)).

(** A valid hexadecimal string: an even number of hexadecimal digits. *)
Definition is_hex_string (s : string) : bool :=
  Nat.even (length s) && forallb isHexDigit s.

(** What [Seal] returns for a nonce of the right size and a plaintext within
    the limit of the mode: the counter-mode ciphertext followed by the tag. *)
Definition sealed (g : gcm.gcm) (nonce plaintext : bytes) : bytes :=
  let counter := gcm.deriveCounter nonce in
  let out := gcm.counterCrypt g plaintext (gcm.gcmInc32 counter) in
  out ++ gcm.auth g out [] (cipher.Encrypt (gcm.cipher g) counter).

(** The AES block cipher that [aes.NewCipher] returns for a key of a valid
    size, and the AEAD that [cipher.NewGCM] builds over it. *)
Definition aes_block (key : bytes) : cipher.Block :=
  {| cipher.BlockSize := aes.BlockSize;
     cipher.Encrypt := aes.encryptBlock (aes.expandKey key) |}.

Definition aesgcm (key : bytes) : gcm.gcm :=
  {| gcm.cipher := aes_block key;
     gcm.nonceSize := gcm.gcmStandardNonceSize;
     gcm.tagSize := gcm.gcmTagSize |}.

(** The text of an envelope: [hex(salt)-hex(iv)-hex(data)]. *)
Definition envelope (salt iv data : bytes) : string :=
  hex.EncodeToString salt ++ lit "-" ++ hex.EncodeToString iv ++ lit "-"
  ++ hex.EncodeToString data.

(** The nonce that [rand.Read] writes from a working source. *)
Definition nonce_of (src : nat -> byte) : bytes := map src (seq 0 12).

(** The two constructor calls of [Encrypt] and [Decrypt] in a row:
    [aes.NewCipher] then [cipher.NewGCM]. *)
Definition construct (key : bytes) : gcm.gcm + error :=
  match aes.NewCipher key with
  | inr e => inr e
  | inl b => gcm.NewGCM b
  end.

(** What [Decrypt] makes of the result of [Open]. *)
Definition opened (r : bytes * option error) : string :=
  match snd r with
  | Some _ => []
  | None => fst r
  end.


(** ** Concrete inputs of the examples *)

(** The bytes written as hexadecimal digits. *)
Definition unhex (s : String.string) : bytes := fst (hex.DecodeString (lit s)).
Arguments unhex s%_string.

(** A randomness source that supplies the bytes 0, 1, 2, ... *)
Definition counting (i : nat) : byte := byte_of_Z (Z.of_nat i).

Definition hunter2 : string := lit "hunter2".
Definition seed_phrase : string := lit "seed phrase here".

(** The envelope that [Encrypt] returns for [seed_phrase] under "hunter2"
    when the randomness source supplies the nonce 00 01 .. 0b. *)
Definition hunter2_envelope : string :=
  envelope [] (nonce_of counting)
    (sealed (aesgcm (pbkdf2.Key hunter2 [] 1000 32 sha256.New))
       (nonce_of counting) seed_phrase).

(** The 32 bytes that Python's [hashlib.pbkdf2_hmac] and OpenSSL derive from
    "hunter2" with the empty salt, 1000 iterations and SHA-256; used below as
    a raw AES-256 key. *)
Definition hunter2_key : bytes :=
  unhex "de0b84dcac64e76e8376a8dfc64a97c77e0d319604d339120ddc514b1e554668".


(** Seal with AES-GCM under a raw key, for the test vectors. *)
Definition seal_with (key nonce plaintext : bytes) : option bytes :=
  match construct key with
  | inl g =>
      match gcm.Seal g nonce plaintext [] with
      | Returns d => Some d
      | Panics _ => None
      end
  | inr _ => None
  end.

Definition encrypt_block_with (key src : bytes) : option bytes :=
  match aes.NewCipher key with
  | inl b => Some (cipher.Encrypt b src)
  | inr _ => None
  end.

(** ** Vocabulary of the further properties *)

(** The upper-case form of a hexadecimal digit: [a-f] become [A-F], every
    other byte stays. *)
Definition toUpperHex (c : byte) : byte :=
  let z := byte_to_Z c in
  if (97 <=? z) && (z <=? 102) then byte_of_Z (z - 32) else c.

(** The passphrase that the fuzz target decrypts with as the wrong one. *)
Definition wrongPassphrase : string := lit "wrong-passphrase-12345".

(** A metadata value that the helper can read as a paymail: [nil] or a
    string; and one that reads as no sender: [nil] or the empty string. *)
Definition stringOrNil (v : spvwallet.value) : bool :=
  match v with
  | spvwallet.VNil | spvwallet.VString _ => true
  | _ => false
  end.

Definition noSender (v : spvwallet.value) : bool :=
  match v with
  | spvwallet.VNil => true
  | spvwallet.VString s => bytes_eqb s []
  | _ => false
  end.

(** The metadata maps on which every type assertion of
    [GetPaymailsFromMetadata] that is reached holds. *)
Definition safeMetadata (metadata : list (string * spvwallet.value)) : bool :=
  stringOrNil (spvwallet.index metadata (lit "sender"))
  && stringOrNil (spvwallet.index metadata (lit "receiver"))
  && (if noSender (spvwallet.index metadata (lit "sender"))
      then
        match spvwallet.index metadata (lit "p2p_tx_metadata") with
        | spvwallet.VNil => true
        | spvwallet.VMap m => stringOrNil (spvwallet.index m (lit "sender"))
        | _ => false
        end
      else true).

Definition safeTransaction (transaction : option spvwallet.Transaction) : bool :=
  match transaction with
  | None => true
  | Some t =>
      match spvwallet.Metadata t with
      | None => true
      | Some metadata => safeMetadata metadata
      end
  end.

(** What the fallback paymail does to a pair found in the metadata. *)
Definition withFallback (direction fallbackPaymail : string) (found : string * string)
  : string * string :=
  let '(sender, receiver) := found in
  if bytes_eqb direction (lit "incoming") then
    (sender, if bytes_eqb receiver [] then fallbackPaymail else receiver)
  else if bytes_eqb direction (lit "outgoing") then
    (if bytes_eqb sender [] then fallbackPaymail else sender, receiver)
  else (sender, receiver).

(** ** Bytes *)

Lemma byte_of_to_Z (b : byte) : byte_of_Z (byte_to_Z b) = b.
Proof. destruct b; reflexivity. Qed.

Lemma byte_to_Z_range (b : byte) : 0 <= byte_to_Z b < 256.
Proof.
  unfold byte_to_Z. pose proof (Byte.to_N_bounded b) as Hb.
  split; [apply N2Z.is_nonneg | ]. lia.
Qed.

Lemma byte_to_of_Z (z : Z) : 0 <= z < 256 -> byte_to_Z (byte_of_Z z) = z.
Proof.
  intros Hz. unfold byte_of_Z, byte_to_Z.
  rewrite Z.mod_small by exact Hz.
  destruct (Byte.of_N (Z.to_N z)) as [b|] eqn:E.
  - apply Byte.to_of_N in E. rewrite E. apply Z2N.id. lia.
  - apply Byte.of_N_None_iff in E. lia.
Qed.

Lemma lxor_byte_range (a b : Z) :
  0 <= a < 256 -> 0 <= b < 256 -> 0 <= Z.lxor a b < 256.
Proof.
  intros Ha Hb.
  assert (Hnn : 0 <= Z.lxor a b) by (apply Z.lxor_nonneg; lia).
  split; [exact Hnn|].
  destruct (Z.eq_dec (Z.lxor a b) 0) as [E|E]; [lia|].
  change 256 with (2 ^ 8). apply Z.log2_lt_pow2; [lia|].
  pose proof (Z.log2_lxor a b ltac:(lia) ltac:(lia)) as Hl.
  assert (Z.log2 a < 8).
  { destruct (Z.eq_dec a 0) as [->|]; [reflexivity|]. apply Z.log2_lt_pow2; lia. }
  assert (Z.log2 b < 8).
  { destruct (Z.eq_dec b 0) as [->|]; [reflexivity|]. apply Z.log2_lt_pow2; lia. }
  lia.
Qed.

Lemma byte_xor_cancel (a b : byte) : byte_xor (byte_xor a b) b = a.
Proof.
  unfold byte_xor.
  rewrite byte_to_of_Z by (apply lxor_byte_range; apply byte_to_Z_range).
  rewrite Z.lxor_assoc, Z.lxor_nilpotent, Z.lxor_0_r.
  apply byte_of_to_Z.
Qed.

Lemma xorBytes_length (a b : bytes) :
  length (xorBytes a b) = Nat.min (length a) (length b).
Proof.
  revert b; induction a as [|x a IH]; intros [|y b]; simpl; auto.
Qed.

Lemma xorBytes_cancel (a b : bytes) :
  (length a <= length b)%nat -> xorBytes (xorBytes a b) b = a.
Proof.
  revert b; induction a as [|x a IH]; intros [|y b] H; simpl in *; try reflexivity; try lia.
  rewrite byte_xor_cancel, IH by lia. reflexivity.
Qed.

Lemma byte_eqb_refl (x : byte) : Byte.eqb x x = true.
Proof. apply Byte.byte_dec_lb. reflexivity. Qed.

Lemma bytes_eqb_refl (a : bytes) : bytes_eqb a a = true.
Proof.
  induction a as [|x a IH]; simpl; [reflexivity|].
  rewrite byte_eqb_refl, IH. reflexivity.
Qed.

Lemma bytes_eqb_eq (a b : bytes) : bytes_eqb a b = true -> a = b.
Proof.
  revert b; induction a as [|x a IH]; intros [|y b] H; simpl in H;
    try reflexivity; try discriminate H.
  apply andb_prop in H. destruct H as [Hx Hr].
  apply Byte.byte_dec_bl in Hx. rewrite Hx, (IH b Hr). reflexivity.
Qed.

Lemma be_of_Z_length (n : nat) (z : Z) : length (be_of_Z n z) = n.
Proof.
  revert z; induction n as [|n IH]; intros z; simpl; [reflexivity|].
  rewrite length_app, IH. simpl. lia.
Qed.

Lemma firstn_app_exact (A : Type) (l1 l2 : list A) (n : nat) :
  length l1 = n -> firstn n (l1 ++ l2) = l1.
Proof.
  intros <-. rewrite firstn_app, Nat.sub_diag, firstn_all. apply app_nil_r.
Qed.

Lemma skipn_app_exact (A : Type) (l1 l2 : list A) (n : nat) :
  length l1 = n -> skipn n (l1 ++ l2) = l2.
Proof.
  intros <-. rewrite skipn_app, Nat.sub_diag, skipn_all. reflexivity.
Qed.
Arguments firstn_app_exact {A} l1 l2 {n} _.
Arguments skipn_app_exact {A} l1 l2 {n} _.

(** ** encoding/hex *)

Lemma fromHexChar_None (c : byte) :
  hex.fromHexChar c = None <-> isHexDigit c = false.
Proof.
  unfold hex.fromHexChar, isHexDigit. cbv zeta.
  destruct ((48 <=? byte_to_Z c) && (byte_to_Z c <=? 57));
    destruct ((97 <=? byte_to_Z c) && (byte_to_Z c <=? 102));
    destruct ((65 <=? byte_to_Z c) && (byte_to_Z c <=? 70)); simpl;
    split; intros H; try reflexivity; discriminate H.
Qed.

Lemma fromHexChar_Some (c : byte) :
  isHexDigit c = true -> exists v, hex.fromHexChar c = Some v.
Proof.
  intros H. destruct (hex.fromHexChar c) as [v|] eqn:E; [eauto|].
  apply fromHexChar_None in E. congruence.
Qed.

(** Induction over a list two elements at a time, the way [Decode] reads. *)
Lemma pairs_ind (A : Type) (P : list A -> Prop) :
  P [] -> (forall x, P [x]) -> (forall x y l, P l -> P (x :: y :: l)) ->
  forall l, P l.
Proof.
  intros H0 H1 H2 l.
  enough (P l /\ forall x, P (x :: l)) by tauto.
  induction l as [|y l [IHa IHb]]; split; auto.
Qed.

(** [Decode] reports no error exactly on the valid hexadecimal strings. *)
Lemma Decode_ok_iff (s : string) :
  snd (hex.Decode s) = None <-> is_hex_string s = true.
Proof.
  induction s as [|p|p q rest IH] using pairs_ind.
  - simpl. tauto.
  - unfold is_hex_string. simpl.
    destruct (hex.fromHexChar p); simpl; split; discriminate.
  - unfold is_hex_string in *. cbn [hex.Decode length Nat.even forallb].
    destruct (hex.fromHexChar p) as [a|] eqn:Ep.
    + destruct (hex.fromHexChar q) as [b|] eqn:Eq.
      * assert (Hp : isHexDigit p = true).
        { destruct (isHexDigit p) eqn:E; [reflexivity|].
          apply fromHexChar_None in E. congruence. }
        assert (Hq : isHexDigit q = true).
        { destruct (isHexDigit q) eqn:E; [reflexivity|].
          apply fromHexChar_None in E. congruence. }
        rewrite Hp, Hq. simpl andb.
        destruct (hex.Decode rest) as [dst err]. simpl in *. exact IH.
      * apply fromHexChar_None in Eq. rewrite Eq.
        destruct (Nat.even (length rest)), (isHexDigit p);
          simpl; split; discriminate.
    + apply fromHexChar_None in Ep. rewrite Ep.
      destruct (Nat.even (length rest)); simpl; split; discriminate.
Qed.


(** The two digits that [EncodeToString] prints for a byte decode to it. *)
Lemma Decode_two_digits (v : byte) (rest : string) :
  hex.Decode (hex.EncodeToString [v] ++ rest) =
  let '(dst, err) := hex.Decode rest in (v :: dst, err).
Proof. destruct v; reflexivity. Qed.

Lemma EncodeToString_cons (v : byte) (src : bytes) :
  hex.EncodeToString (v :: src) = hex.EncodeToString [v] ++ hex.EncodeToString src.
Proof. reflexivity. Qed.

Lemma Decode_EncodeToString (src : bytes) :
  hex.DecodeString (hex.EncodeToString src) = (src, None).
Proof.
  unfold hex.DecodeString.
  induction src as [|v src IH]; [reflexivity|].
  rewrite EncodeToString_cons, Decode_two_digits, IH. reflexivity.
Qed.

Lemma EncodeToString_length (src : bytes) :
  length (hex.EncodeToString src) = (2 * length src)%nat.
Proof.
  induction src as [|v src IH]; simpl; [reflexivity|]. rewrite IH. lia.
Qed.

Lemma EncodeToString_app (a b : bytes) :
  hex.EncodeToString (a ++ b) = hex.EncodeToString a ++ hex.EncodeToString b.
Proof.
  induction a as [|v a IH]; [reflexivity|].
  rewrite <- app_comm_cons, EncodeToString_cons, IH, (EncodeToString_cons v a).
  rewrite app_assoc. reflexivity.
Qed.

(** Every character printed is one of [0-9a-f]. *)
Lemma EncodeToString_lower (src : bytes) :
  forallb isLowerHexDigit (hex.EncodeToString src) = true.
Proof.
  induction src as [|v src IH]; [reflexivity|].
  rewrite EncodeToString_cons, forallb_app, IH, andb_true_r.
  destruct v; reflexivity.
Qed.

Lemma isLowerHexDigit_isHexDigit (c : byte) :
  isLowerHexDigit c = true -> isHexDigit c = true.
Proof.
  unfold isLowerHexDigit, isHexDigit. cbv zeta. intros ->. reflexivity.
Qed.

Lemma EncodeToString_is_hex (src : bytes) :
  is_hex_string (hex.EncodeToString src) = true.
Proof.
  apply Decode_ok_iff. fold (hex.DecodeString (hex.EncodeToString src)).
  rewrite Decode_EncodeToString. reflexivity.
Qed.

Lemma EncodeToString_no_dash (src : bytes) :
  ~ In "-"%byte (hex.EncodeToString src).
Proof.
  intros H.
  pose proof (EncodeToString_lower src) as Hl.
  rewrite forallb_forall in Hl. specialize (Hl _ H). discriminate Hl.
Qed.

(** ** strings.Split *)

Lemma Split_nonempty (s : string) (sep : byte) : strings.Split s sep <> [].
Proof.
  destruct s as [|c s]; simpl; [discriminate|].
  destruct (Byte.eqb c sep); [discriminate|].
  destruct (strings.Split s sep); discriminate.
Qed.

Lemma Split_no_sep (a : string) (sep : byte) :
  ~ In sep a -> strings.Split a sep = [a].
Proof.
  induction a as [|c a IH]; intros H; simpl; [reflexivity|].
  destruct (Byte.eqb c sep) eqn:E.
  - apply Byte.byte_dec_bl in E. subst. exfalso. apply H. left. reflexivity.
  - rewrite IH; [reflexivity|]. intros Hin. apply H. right. exact Hin.
Qed.

Lemma Split_app (a rest : string) (sep : byte) :
  ~ In sep a -> strings.Split (a ++ sep :: rest) sep = a :: strings.Split rest sep.
Proof.
  induction a as [|c a IH]; intros H; simpl.
  - rewrite byte_eqb_refl. reflexivity.
  - destruct (Byte.eqb c sep) eqn:E.
    + apply Byte.byte_dec_bl in E. subst. exfalso. apply H. left. reflexivity.
    + rewrite IH; [reflexivity|]. intros Hin. apply H. right. exact Hin.
Qed.

(** The number of components is one more than the number of separators. *)
Lemma Split_length (s : string) (sep : byte) :
  length (strings.Split s sep) = S (count_occ Byte.byte_eq_dec s sep).
Proof.
  induction s as [|c s IH]; simpl; [reflexivity|].
  destruct (Byte.eqb c sep) eqn:E.
  - apply Byte.byte_dec_bl in E. subst c.
    destruct (Byte.byte_eq_dec sep sep) as [_|N]; [|congruence].
    simpl. rewrite IH. reflexivity.
  - destruct (Byte.byte_eq_dec c sep) as [->|_].
    + rewrite byte_eqb_refl in E. discriminate.
    + destruct (strings.Split s sep) eqn:Es; simpl in *; [discriminate IH|exact IH].
Qed.

(** ** crypto/sha256, crypto/hmac, pbkdf2 *)

Lemma Sum256_length (data : bytes) : length (sha256.Sum256 data) = 32%nat.
Proof.
  unfold sha256.Sum256. cbv zeta.
  repeat rewrite length_app. repeat rewrite be_of_Z_length. reflexivity.
Qed.

Section HashFacts.

Variable h : hash.Hash.
Hypothesis Sum_length : forall data, length (hash.Sum h data) = hash.Size h.

Lemma hmac_Sum_length (key data : bytes) :
  length (hash.Sum (hmac.New h key) data) = hash.Size h.
Proof. unfold hmac.New. cbn [hash.Sum]. apply Sum_length. Qed.

(** RFC 2104 pads a short key with zero bytes, so a key and the same key
    followed by a zero byte give one key block. *)
Lemma keyBlock_zero_pad (key : bytes) :
  (length key < hash.BlockSize h)%nat ->
  hmac.keyBlock h (key ++ [x00]) = hmac.keyBlock h key.
Proof.
  intros Hlen. unfold hmac.keyBlock. cbv zeta.
  assert (E1 : (hash.BlockSize h <? length (key ++ [x00]))%nat = false).
  { apply Nat.ltb_ge. rewrite length_app. simpl. lia. }
  assert (E2 : (hash.BlockSize h <? length key)%nat = false).
  { apply Nat.ltb_ge. lia. }
  rewrite E1, E2.
  rewrite <- app_assoc. cbn [app].
  rewrite repeat_cons, app_assoc.
  rewrite firstn_app.
  replace (hash.BlockSize h - length (key ++ repeat x00 (hash.BlockSize h)))%nat
    with 0%nat by (rewrite length_app, repeat_length; lia).
  cbn [firstn]. apply app_nil_r.
Qed.

Lemma hmac_New_zero_pad (key : bytes) :
  (length key < hash.BlockSize h)%nat ->
  hmac.New h (key ++ [x00]) = hmac.New h key.
Proof.
  intros Hlen. unfold hmac.New. rewrite (keyBlock_zero_pad key Hlen). reflexivity.
Qed.

Lemma Key_zero_pad (password salt : bytes) (iter keyLen : nat) :
  (length password < hash.BlockSize h)%nat ->
  pbkdf2.Key (password ++ [x00]) salt iter keyLen h =
  pbkdf2.Key password salt iter keyLen h.
Proof.
  intros Hlen. unfold pbkdf2.Key. rewrite (hmac_New_zero_pad password Hlen). reflexivity.
Qed.

Lemma iterate_length (prf : hash.Hash) (n : nat) :
  (forall data, length (hash.Sum prf data) = hash.Size h) ->
  forall U T, length T = hash.Size h ->
  length (pbkdf2.iterate prf n U T) = hash.Size h.
Proof.
  intros Hprf. induction n as [|n IH]; intros U T HT; simpl; [exact HT|].
  apply IH. rewrite xorBytes_length, HT, Hprf. apply Nat.min_id.
Qed.

Lemma F_length (key salt : bytes) (iter blk : nat) :
  length (pbkdf2.F (hmac.New h key) salt iter blk) = hash.Size h.
Proof.
  unfold pbkdf2.F. cbv zeta.
  apply iterate_length; intros; apply hmac_Sum_length.
Qed.

End HashFacts.

(** The key of [deriveKey] always has 32 bytes. *)
Lemma Key_length_32 (password salt : bytes) (iter : nat) :
  length (pbkdf2.Key password salt iter 32 sha256.New) = 32%nat.
Proof.
  unfold pbkdf2.Key. cbv zeta.
  change (hash.Size (hmac.New sha256.New password)) with 32%nat.
  change ((32 + 32 - 1) / 32)%nat with 1%nat.
  cbn [seq flat_map]. rewrite app_nil_r.
  rewrite firstn_all2; rewrite (F_length sha256.New Sum256_length); auto.
Qed.

(** ** crypto/aes *)

Lemma encryptBlock_length (enc : list Z) (src : bytes) :
  length (aes.encryptBlock enc src) = 16%nat.
Proof.
  unfold aes.encryptBlock. cbv zeta.
  rewrite length_map. unfold aes.AddRoundKey at 1.
  rewrite length_map, length_seq. reflexivity.
Qed.

Lemma NewCipher_32 (key : bytes) :
  length key = 32%nat -> aes.NewCipher key = inl (aes_block key).
Proof. intros H. unfold aes.NewCipher. cbv zeta. rewrite H. reflexivity. Qed.

Lemma NewCipher_error (key : bytes) (e : error) :
  aes.NewCipher key = inr e ->
  length key <> 16%nat /\ length key <> 24%nat /\ length key <> 32%nat.
Proof.
  unfold aes.NewCipher. cbv zeta.
  destruct (length key =? 16)%nat eqn:E1; [discriminate|].
  destruct (length key =? 24)%nat eqn:E2; [discriminate|].
  destruct (length key =? 32)%nat eqn:E3; [discriminate|].
  intros _. apply Nat.eqb_neq in E1, E2, E3. auto.
Qed.

Lemma NewGCM_aes (key : bytes) : gcm.NewGCM (aes_block key) = inl (aesgcm key).
Proof. reflexivity. Qed.

(** ** crypto/cipher: GCM *)

Section GcmFacts.

Variable g : gcm.gcm.
Hypothesis Encrypt_length :
  forall src, length (cipher.Encrypt (gcm.cipher g) src) = 16%nat.
Hypothesis nonceSize_12 : gcm.nonceSize g = 12%nat.
Hypothesis tagSize_16 : gcm.tagSize g = 16%nat.

Lemma auth_length (ciphertext additionalData tagMask : bytes) :
  length tagMask = 16%nat ->
  length (gcm.auth g ciphertext additionalData tagMask) = 16%nat.
Proof.
  intros H. unfold gcm.auth. cbv zeta.
  rewrite xorBytes_length, be_of_Z_length, H. reflexivity.
Qed.

Lemma counterCrypt_fuel_nil (fuel : nat) (counter : bytes) :
  gcm.counterCrypt_fuel fuel g [] counter = [].
Proof. destruct fuel; reflexivity. Qed.

(** One turn of the loop of [counterCrypt]. *)
Lemma counterCrypt_fuel_step (fuel : nat) (input counter : bytes) :
  input <> [] ->
  gcm.counterCrypt_fuel (S fuel) g input counter =
  xorBytes (firstn 16 input) (cipher.Encrypt (gcm.cipher g) counter)
  ++ gcm.counterCrypt_fuel fuel g (skipn 16 input) (gcm.gcmInc32 counter).
Proof. destruct input; [congruence|reflexivity]. Qed.

Lemma counterCrypt_fuel_length (fuel : nat) :
  forall input counter, (length input <= fuel)%nat ->
  length (gcm.counterCrypt_fuel fuel g input counter) = length input.
Proof.
  induction fuel as [|fuel IH]; intros input counter Hlen.
  - destruct input; [reflexivity|simpl in Hlen; lia].
  - destruct input as [|x input]; [reflexivity|].
    rewrite counterCrypt_fuel_step by discriminate.
    rewrite length_app, xorBytes_length, Encrypt_length, length_firstn.
    rewrite IH; rewrite length_skipn; cbn [length] in *; lia.
Qed.

(** Counter mode is its own inverse: the same key stream is xored twice. *)
Lemma counterCrypt_fuel_cancel (fuel : nat) :
  forall input counter, (length input <= fuel)%nat ->
  gcm.counterCrypt_fuel fuel g (gcm.counterCrypt_fuel fuel g input counter) counter
  = input.
Proof.
  induction fuel as [|fuel IH]; intros input counter Hlen.
  - destruct input; [reflexivity|simpl in Hlen; lia].
  - destruct input as [|x input]; [reflexivity|].
    set (inp := x :: input) in *.
    assert (Hne : inp <> []) by discriminate.
    assert (Hskip : (length (skipn 16 inp) <= fuel)%nat).
    { rewrite length_skipn. subst inp. simpl in *. lia. }
    rewrite (counterCrypt_fuel_step fuel inp counter Hne).
    set (mask := cipher.Encrypt (gcm.cipher g) counter).
    set (tail := gcm.counterCrypt_fuel fuel g (skipn 16 inp) (gcm.gcmInc32 counter)).
    assert (Hmask : length mask = 16%nat) by apply Encrypt_length.
    assert (Hhead : length (xorBytes (firstn 16 inp) mask) = Nat.min 16 (length inp)).
    { rewrite xorBytes_length, length_firstn, Hmask. lia. }
    assert (Hout : xorBytes (firstn 16 inp) mask ++ tail <> []).
    { intros E. apply (f_equal (@length byte)) in E.
      rewrite length_app, Hhead in E. subst inp. simpl in E. lia. }
    rewrite (counterCrypt_fuel_step fuel _ counter Hout). fold mask.
    destruct (Nat.le_gt_cases 16 (length inp)) as [Hge|Hlt].
    + assert (H16 : length (xorBytes (firstn 16 inp) mask) = 16%nat) by lia.
      rewrite (firstn_app_exact _ _ H16), (skipn_app_exact _ _ H16).
      rewrite xorBytes_cancel by (rewrite length_firstn, Hmask; lia).
      unfold tail. rewrite IH by exact Hskip.
      apply firstn_skipn.
    + assert (Hnil : skipn 16 inp = []) by (apply skipn_all2; lia).
      assert (Hall : firstn 16 inp = inp) by (apply firstn_all2; lia).
      unfold tail. rewrite Hnil, counterCrypt_fuel_nil, app_nil_r, Hall.
      rewrite firstn_all2 by (rewrite xorBytes_length; lia).
      rewrite skipn_all2 by (rewrite xorBytes_length; lia).
      rewrite counterCrypt_fuel_nil, app_nil_r.
      apply xorBytes_cancel. lia.
Qed.

Lemma counterCrypt_length (input counter : bytes) :
  length (gcm.counterCrypt g input counter) = length input.
Proof. unfold gcm.counterCrypt. apply counterCrypt_fuel_length. lia. Qed.

Lemma counterCrypt_cancel (input counter : bytes) :
  gcm.counterCrypt g (gcm.counterCrypt g input counter) counter = input.
Proof.
  unfold gcm.counterCrypt at 1. rewrite counterCrypt_length.
  unfold gcm.counterCrypt. apply counterCrypt_fuel_cancel. lia.
Qed.

Lemma Seal_returns (nonce plaintext : bytes) :
  length nonce = 12%nat ->
  Z.of_nat (length plaintext) <= gcm.maxPlaintext ->
  gcm.Seal g nonce plaintext [] = Returns (sealed g nonce plaintext).
Proof.
  intros Hn Hp. unfold gcm.Seal.
  rewrite nonceSize_12, Hn. cbn [Nat.eqb negb].
  assert (E : (gcm.maxPlaintext <? Z.of_nat (length plaintext)) = false)
    by (apply Z.ltb_ge; exact Hp).
  rewrite E. reflexivity.
Qed.

Lemma Seal_too_large (nonce plaintext : bytes) :
  length nonce = 12%nat ->
  gcm.maxPlaintext < Z.of_nat (length plaintext) ->
  gcm.Seal g nonce plaintext [] =
  Panics "crypto/cipher: message too large for GCM".
Proof.
  intros Hn Hp. unfold gcm.Seal.
  rewrite nonceSize_12, Hn. cbn [Nat.eqb negb].
  assert (E : (gcm.maxPlaintext <? Z.of_nat (length plaintext)) = true)
    by (apply Z.ltb_lt; exact Hp).
  rewrite E. reflexivity.
Qed.

Lemma sealed_length (nonce plaintext : bytes) :
  length (sealed g nonce plaintext) = (length plaintext + 16)%nat.
Proof.
  unfold sealed. cbv zeta.
  rewrite length_app, counterCrypt_length, auth_length; auto.
Qed.


(** A ciphertext shorter than the tag is rejected before any decryption. *)
Lemma Open_short (nonce ciphertext data : bytes) :
  length nonce = 12%nat ->
  (length ciphertext < 16)%nat ->
  gcm.Open g nonce ciphertext data = Returns ([], Some errOpen).
Proof.
  intros Hn Hc. unfold gcm.Open.
  rewrite nonceSize_12, tagSize_16, Hn. cbn [Nat.eqb negb].
  change (16 <? gcm.gcmMinimumTagSize)%nat with false. cbv iota.
  assert (E : (length ciphertext <? 16)%nat = true) by (apply Nat.ltb_lt; exact Hc).
  rewrite E. reflexivity.
Qed.

(** A tag other than the one [auth] computes is rejected. *)
Lemma Open_tag_mismatch (nonce ciphertext tag : bytes) :
  length nonce = 12%nat ->
  length tag = 16%nat ->
  gcm.auth g ciphertext [] (cipher.Encrypt (gcm.cipher g) (gcm.deriveCounter nonce))
    <> tag ->
  gcm.Open g nonce (ciphertext ++ tag) [] = Returns ([], Some errOpen).
Proof.
  intros Hn Ht Hneq. unfold gcm.Open.
  rewrite nonceSize_12, tagSize_16, Hn. cbn [Nat.eqb negb].
  change (16 <? gcm.gcmMinimumTagSize)%nat with false. cbv iota.
  destruct (length (ciphertext ++ tag) <? 16)%nat; [reflexivity|].
  destruct (gcm.maxPlaintext + Z.of_nat 16 <? Z.of_nat (length (ciphertext ++ tag)));
    [reflexivity|].
  cbv zeta.
  assert (Hcut : (length (ciphertext ++ tag) - 16)%nat = length ciphertext)
    by (rewrite length_app; lia).
  rewrite Hcut.
  rewrite (firstn_app_exact _ _ eq_refl), (skipn_app_exact _ _ eq_refl).
  rewrite firstn_all2 by (rewrite auth_length; [lia|apply Encrypt_length]).
  destruct (bytes_eqb _ tag) eqn:E; [|reflexivity].
  apply bytes_eqb_eq in E. contradiction.
Qed.

(** [Open] undoes [Seal]. *)
Lemma Open_sealed (nonce plaintext : bytes) :
  length nonce = 12%nat ->
  Z.of_nat (length plaintext) <= gcm.maxPlaintext ->
  gcm.Open g nonce (sealed g nonce plaintext) [] = Returns (plaintext, None).
Proof.
  intros Hn Hp. unfold gcm.Open.
  rewrite nonceSize_12, tagSize_16, Hn. cbn [Nat.eqb negb].
  change (16 <? gcm.gcmMinimumTagSize)%nat with false. cbv iota.
  rewrite sealed_length.
  assert (E1 : (length plaintext + 16 <? 16)%nat = false) by (apply Nat.ltb_ge; lia).
  assert (E2 : (gcm.maxPlaintext + Z.of_nat 16 <? Z.of_nat (length plaintext + 16)) = false)
    by (apply Z.ltb_ge; lia).
  rewrite E1, E2. cbv zeta.
  replace (length plaintext + 16 - 16)%nat with (length plaintext) by lia.
  unfold sealed. cbv zeta.
  set (counter := gcm.deriveCounter nonce).
  set (out := gcm.counterCrypt g plaintext (gcm.gcmInc32 counter)).
  set (tagMask := cipher.Encrypt (gcm.cipher g) counter).
  assert (Hout : length out = length plaintext) by apply counterCrypt_length.
  rewrite (firstn_app_exact _ _ Hout), (skipn_app_exact _ _ Hout).
  rewrite firstn_all2 by (rewrite auth_length; [lia|apply Encrypt_length]).
  rewrite bytes_eqb_refl. cbn [negb].
  unfold out. rewrite counterCrypt_cancel. reflexivity.
Qed.

End GcmFacts.

Lemma aesgcm_Encrypt_length (key src : bytes) :
  length (cipher.Encrypt (gcm.cipher (aesgcm key)) src) = 16%nat.
Proof. apply encryptBlock_length. Qed.

(** The same facts for the AEAD of the package: AES under a 12-byte nonce
    and a 16-byte tag. *)
Section AesGcm.

Variable key : bytes.

Lemma aes_Seal_returns (nonce plaintext : bytes) :
  length nonce = 12%nat ->
  Z.of_nat (length plaintext) <= gcm.maxPlaintext ->
  gcm.Seal (aesgcm key) nonce plaintext [] = Returns (sealed (aesgcm key) nonce plaintext).
Proof. apply Seal_returns. reflexivity. Qed.

Lemma aes_Seal_too_large (nonce plaintext : bytes) :
  length nonce = 12%nat ->
  gcm.maxPlaintext < Z.of_nat (length plaintext) ->
  gcm.Seal (aesgcm key) nonce plaintext [] =
  Panics "crypto/cipher: message too large for GCM".
Proof. apply Seal_too_large. reflexivity. Qed.

Lemma aes_sealed_length (nonce plaintext : bytes) :
  length (sealed (aesgcm key) nonce plaintext) = (length plaintext + 16)%nat.
Proof. apply sealed_length; try reflexivity; intros; apply aesgcm_Encrypt_length. Qed.


Lemma aes_Open_short (nonce ciphertext data : bytes) :
  length nonce = 12%nat ->
  (length ciphertext < 16)%nat ->
  gcm.Open (aesgcm key) nonce ciphertext data = Returns ([], Some errOpen).
Proof. apply Open_short; reflexivity. Qed.

Lemma aes_Open_tag_mismatch (nonce ciphertext tag : bytes) :
  length nonce = 12%nat ->
  length tag = 16%nat ->
  gcm.auth (aesgcm key) ciphertext []
    (cipher.Encrypt (gcm.cipher (aesgcm key)) (gcm.deriveCounter nonce)) <> tag ->
  gcm.Open (aesgcm key) nonce (ciphertext ++ tag) [] = Returns ([], Some errOpen).
Proof. apply Open_tag_mismatch; try reflexivity; intros; apply aesgcm_Encrypt_length. Qed.

Lemma aes_Open_sealed (nonce plaintext : bytes) :
  length nonce = 12%nat ->
  Z.of_nat (length plaintext) <= gcm.maxPlaintext ->
  gcm.Open (aesgcm key) nonce (sealed (aesgcm key) nonce plaintext) []
  = Returns (plaintext, None).
Proof. apply Open_sealed; try reflexivity; intros; apply aesgcm_Encrypt_length. Qed.

End AesGcm.

(** ** Package encryption: how the two functions unfold *)


Lemma nonce_of_length (src : nat -> byte) : length (nonce_of src) = 12%nat.
Proof. unfold nonce_of. rewrite length_map, length_seq. reflexivity. Qed.

(** [Encrypt] with a failing source returns its error; with a working one it
    is the envelope of the [Seal] output under the key of the empty salt. *)
Lemma Encrypt_unfold (rnd : rand.Reader) (passphrase plaintext : string) :
  encryption.Encrypt rnd passphrase plaintext =
  match rnd with
  | rand.Fails e => Returns ([], Some e)
  | rand.Supplies src =>
      data <- gcm.Seal (aesgcm (pbkdf2.Key passphrase [] 1000 32 sha256.New))
                       (nonce_of src) plaintext [] ;;
      Returns (envelope [] (nonce_of src) data, None)
  end.
Proof.
  unfold encryption.Encrypt, encryption.deriveKey.
  destruct rnd as [e|src]; cbn [rand.Read].
  - reflexivity.
  - rewrite NewCipher_32 by apply Key_length_32.
    rewrite NewGCM_aes. rewrite repeat_length. reflexivity.
Qed.

Lemma lit_dash : lit "-" = ["-"%byte].
Proof. reflexivity. Qed.

Lemma Split_envelope (salt iv data : bytes) :
  strings.Split (envelope salt iv data) "-"%byte =
  [hex.EncodeToString salt; hex.EncodeToString iv; hex.EncodeToString data].
Proof.
  unfold envelope. rewrite lit_dash. cbn [app].
  rewrite Split_app by apply EncodeToString_no_dash.
  rewrite Split_app by apply EncodeToString_no_dash.
  rewrite Split_no_sep by apply EncodeToString_no_dash.
  reflexivity.
Qed.

(** [Decrypt] on an input that parses: three components that decode, the
    second to 12 bytes.  The key comes from the decoded first component. *)
Lemma Decrypt_parsed (passphrase ciphertext a b c : string) (salt iv data : bytes) :
  strings.Split ciphertext "-"%byte = [a; b; c] ->
  hex.DecodeString a = (salt, None) ->
  hex.DecodeString b = (iv, None) ->
  length iv = 12%nat ->
  hex.DecodeString c = (data, None) ->
  encryption.Decrypt passphrase ciphertext =
  r <- gcm.Open (aesgcm (pbkdf2.Key passphrase salt 1000 32 sha256.New)) iv data [] ;;
  Returns (opened r).
Proof.
  intros Hs Ha Hb Hiv Hc.
  unfold encryption.Decrypt, encryption.deriveKey. rewrite Hs.
  cbn [length Nat.eqb negb nth]. rewrite Ha, Hb, Hiv, Hc.
  cbn [Nat.eqb negb].
  rewrite NewCipher_32 by apply Key_length_32.
  rewrite NewGCM_aes.
  destruct (gcm.Open _ iv data []) as [[pt [e|]]|msg]; reflexivity.
Qed.

Lemma Decrypt_envelope (passphrase : string) (salt iv data : bytes) :
  length iv = 12%nat ->
  encryption.Decrypt passphrase (envelope salt iv data) =
  r <- gcm.Open (aesgcm (pbkdf2.Key passphrase salt 1000 32 sha256.New)) iv data [] ;;
  Returns (opened r).
Proof.
  intros Hiv.
  apply (Decrypt_parsed passphrase _ _ _ _ salt iv data (Split_envelope salt iv data));
    auto using Decode_EncodeToString.
Qed.

(** The envelope of a sealed plaintext opens to the plaintext under the key
    of the same passphrase and salt. *)
Lemma Decrypt_sealed (passphrase : string) (salt iv plaintext : bytes) :
  length iv = 12%nat ->
  Z.of_nat (length plaintext) <= gcm.maxPlaintext ->
  encryption.Decrypt passphrase
    (envelope salt iv
       (sealed (aesgcm (pbkdf2.Key passphrase salt 1000 32 sha256.New)) iv plaintext))
  = Returns plaintext.
Proof.
  intros Hiv Hp. rewrite Decrypt_envelope by exact Hiv.
  rewrite aes_Open_sealed by assumption. reflexivity.
Qed.



Lemma sealed_parts (g : gcm.gcm) (nonce plaintext : bytes) :
  sealed g nonce plaintext =
  gcm.counterCrypt g plaintext (gcm.gcmInc32 (gcm.deriveCounter nonce))
  ++ gcm.auth g
       (gcm.counterCrypt g plaintext (gcm.gcmInc32 (gcm.deriveCounter nonce))) []
       (cipher.Encrypt (gcm.cipher g) (gcm.deriveCounter nonce)).
Proof. reflexivity. Qed.

Lemma deriveKey_fst (passphrase : string) (salt : bytes) :
  fst (encryption.deriveKey passphrase salt)
  = pbkdf2.Key passphrase salt 1000 32 sha256.New.
Proof. reflexivity. Qed.


(** ** Published test vectors *)

(** FIPS 180-4 examples for SHA-256. *)
Example sha256_empty :
  sha256.Sum256 [] =
  unhex "e3b0c44298fc1c149afbf4c8996fb92427ae41e4649b934ca495991b7852b855".
Proof. vm_compute. reflexivity. Qed.

Example sha256_abc :
  sha256.Sum256 (lit "abc") =
  unhex "ba7816bf8f01cfea414140de5dae2223b00361a396177a9cb410ff61f20015ad".
Proof. vm_compute. reflexivity. Qed.

Example sha256_two_blocks :
  sha256.Sum256 (lit "abcdbcdecdefdefgefghfghighijhijkijkljklmklmnlmnomnopnopq") =
  unhex "248d6a61d20638b8e5c026930c3e6039a33ce45964ff2167f6ecedd419db06c1".
Proof. vm_compute. reflexivity. Qed.

(** RFC 4231 test cases 1 and 6 for HMAC-SHA-256 (a short key, and a key
    longer than the block). *)
Example hmac_rfc4231_1 :
  hash.Sum (hmac.New sha256.New (repeat x0b 20)) (lit "Hi There") =
  unhex "b0344c61d8db38535ca8afceaf0bf12b881dc200c9833da726e9376c2e32cff7".
Proof. vm_compute. reflexivity. Qed.

Example hmac_rfc4231_6 :
  hash.Sum (hmac.New sha256.New (repeat xaa 131))
           (lit "Test Using Larger Than Block-Size Key - Hash Key First") =
  unhex "60e431591ee0b67f0d8a26aacbf5b77f8e0bc6213728c5140546040f0ee37f54".
Proof. vm_compute. reflexivity. Qed.

(** PBKDF2-HMAC-SHA256 with the password "password" and the salt "salt". *)
Example pbkdf2_one_iteration :
  pbkdf2.Key (lit "password") (lit "salt") 1 32 sha256.New =
  unhex "120fb6cffcf8b32c43e7225256c4f837a86548c92ccc35480805987cb70be17b".
Proof. vm_compute. reflexivity. Qed.

Example pbkdf2_two_iterations :
  pbkdf2.Key (lit "password") (lit "salt") 2 32 sha256.New =
  unhex "ae4d0c95af6b46d32d0adff928f06dd02a303f8ef3c251dfd6e2d85a95474c43".
Proof. vm_compute. reflexivity. Qed.

Example pbkdf2_two_blocks :
  pbkdf2.Key (lit "passwordPASSWORDpassword")
             (lit "saltSALTsaltSALTsaltSALTsaltSALTsalt") 3 40 sha256.New =
  unhex "325651a5ca818d11f4331cb0c300d6f8b68790c75a09ebad494e74b3f649475856c392e03e00705f".
Proof. vm_compute. reflexivity. Qed.

(** FIPS 197 appendix C: AES-128, AES-192 and AES-256. *)
Example aes128_fips197 :
  encrypt_block_with (unhex "000102030405060708090a0b0c0d0e0f")
                     (unhex "00112233445566778899aabbccddeeff") =
  Some (unhex "69c4e0d86a7b0430d8cdb78070b4c55a").
Proof. vm_compute. reflexivity. Qed.

Example aes192_fips197 :
  encrypt_block_with (unhex "000102030405060708090a0b0c0d0e0f1011121314151617")
                     (unhex "00112233445566778899aabbccddeeff") =
  Some (unhex "dda97ca4864cdfe06eaf70a0ec0d7191").
Proof. vm_compute. reflexivity. Qed.

Example aes256_fips197 :
  encrypt_block_with
    (unhex "000102030405060708090a0b0c0d0e0f101112131415161718191a1b1c1d1e1f")
    (unhex "00112233445566778899aabbccddeeff") =
  Some (unhex "8ea2b7ca516745bfeafc49904b496089").
Proof. vm_compute. reflexivity. Qed.

Example aes_key_size : aes.NewCipher (lit "too short") = inr (KeySizeError 9).
Proof. reflexivity. Qed.

(** The AES-256 test cases of the GCM submission (McGrew and Viega): the
    empty plaintext, one zero block, and four blocks. *)
Example gcm_test_case_13 :
  seal_with (repeat x00 32) (repeat x00 12) [] =
  Some (unhex "530f8afbc74536b9a963b4f1c4cb738b").
Proof. vm_compute. reflexivity. Qed.

Example gcm_test_case_14 :
  seal_with (repeat x00 32) (repeat x00 12) (repeat x00 16) =
  Some (unhex "cea7403d4d606b6e074ec5d3baf39d18d0d1c8a799996bf0265b98b5d48ab919").
Proof. vm_compute. reflexivity. Qed.

Example gcm_test_case_15 :
  seal_with
    (unhex "feffe9928665731c6d6a8f9467308308feffe9928665731c6d6a8f9467308308")
    (unhex "cafebabefacedbaddecaf888")
    (unhex "d9313225f88406e5a55909c5aff5269a86a7a9531534f7da2e4c303d8a318a721c3c0c95956809532fcf0e2449a6b525b16aedf5aa0de657ba637b391aafd255") =
  Some (unhex "522dc1f099567d07f47f37a32a84427d643a8cdcbfe5c0c97598a2bd2555d1aa8cb08e48590dbb3da7b08b1056828838c5f61e6393ba7a0abcc9f662898015adb094dac5d93471bdec1a502270e3cc6c").
Proof. vm_compute. reflexivity. Qed.

(** A plaintext that ends in a partial block. *)
Example gcm_partial_block :
  seal_with
    (unhex "feffe9928665731c6d6a8f9467308308feffe9928665731c6d6a8f9467308308")
    (unhex "cafebabefacedbaddecaf888") (lit "seventeen bytes!!") =
  Some (unhex "f87985b00fa61e873f065c1ff11417c6c3d9348d22d6734e3857e7f1ef1b81bdf3").
Proof. vm_compute. reflexivity. Qed.

Example gcm_wrong_nonce_size :
  gcm.Seal (aesgcm (repeat x00 32)) (repeat x00 13) [] [] =
  Panics "crypto/cipher: incorrect nonce length given to GCM".
Proof. reflexivity. Qed.

(** ** The package on concrete inputs *)

(** HMAC pads a short key with zeros: "hunter2" and "hunter2" followed by a
    zero byte give one MAC, and one PBKDF2 key (here after two iterations). *)
Example hmac_zero_padded_key :
  hash.Sum (hmac.New sha256.New hunter2) seed_phrase =
  unhex "4c3e9536427c7170637f74d1d50ed10b223766b841cd7d22c4c07ad6ea3027e8"
  /\ hash.Sum (hmac.New sha256.New (hunter2 ++ [x00])) seed_phrase =
     unhex "4c3e9536427c7170637f74d1d50ed10b223766b841cd7d22c4c07ad6ea3027e8".
Proof. split; vm_compute; reflexivity. Qed.

Example pbkdf2_zero_padded_password :
  pbkdf2.Key hunter2 [] 2 32 sha256.New =
  unhex "a3a6cb82c3d52e4ce87f6e31d365fc5bf49c0aab617131e16381a8e684187931"
  /\ pbkdf2.Key (hunter2 ++ [x00]) [] 2 32 sha256.New =
     unhex "a3a6cb82c3d52e4ce87f6e31d365fc5bf49c0aab617131e16381a8e684187931".
Proof. split; vm_compute; reflexivity. Qed.

(** AES-256-GCM under the key of "hunter2": sealing, opening, and opening
    after one flipped digit of the sealed part. *)
Example gcm_hunter2_seal :
  seal_with hunter2_key (nonce_of counting) seed_phrase =
  Some (unhex "99774f6f31b1710da1bf4bce7ef6e894fce8909ad60d12eb8637893c7b1d0eb0").
Proof. vm_compute. reflexivity. Qed.

Example gcm_hunter2_open :
  gcm.Open (aesgcm hunter2_key) (nonce_of counting)
    (unhex "99774f6f31b1710da1bf4bce7ef6e894fce8909ad60d12eb8637893c7b1d0eb0") []
  = Returns (seed_phrase, None).
Proof. vm_compute. reflexivity. Qed.

Example gcm_hunter2_tampered :
  gcm.Open (aesgcm hunter2_key) (nonce_of counting)
    (unhex "89774f6f31b1710da1bf4bce7ef6e894fce8909ad60d12eb8637893c7b1d0eb0") []
  = Returns ([], Some errOpen).
Proof. vm_compute. reflexivity. Qed.

Lemma small_plaintext : Z.of_nat (length seed_phrase) <= gcm.maxPlaintext.
Proof. vm_compute. discriminate. Qed.

Lemma Encrypt_hunter2 :
  encryption.Encrypt (rand.Supplies counting) hunter2 seed_phrase =
  Returns (hunter2_envelope, None).
Proof.
  rewrite Encrypt_unfold.
  rewrite aes_Seal_returns by (auto using nonce_of_length, small_plaintext).
  reflexivity.
Qed.

Example Decrypt_hunter2 :
  encryption.Decrypt hunter2 hunter2_envelope = Returns seed_phrase.
Proof.
  unfold hunter2_envelope.
  apply Decrypt_sealed; auto using nonce_of_length, small_plaintext.
Qed.



Example Decrypt_scenarios :
  map (encryption.Decrypt hunter2)
      [[]; lit "zz-zz-zz"; lit "no-dashes"; lit "--"; lit "a-b-c";
       lit "abc123-def456-ghi789";
       lit "-000102030405060708090a0b0c-99774f6f31b1710da1bf4bce7ef6e894fce8909ad60d12eb8637893c7b1d0eb0"]
  = repeat (Returns []) 7.
Proof. reflexivity. Qed.

(** ** The claims *)

(** C1.  Round trip: whenever [Encrypt] returns an envelope without error,
    whatever the passphrase, the plaintext and the nonce drawn, [Decrypt]
    with the same passphrase returns exactly the plaintext. *)
Theorem Decrypt_Encrypt_roundtrip
    (rnd : rand.Reader) (passphrase plaintext E : string) :
  encryption.Encrypt rnd passphrase plaintext = Returns (E, None) ->
  encryption.Decrypt passphrase E = Returns plaintext.
Proof.
  rewrite Encrypt_unfold. destruct rnd as [e|src]; [discriminate|].
  destruct (Z_le_gt_dec (Z.of_nat (length plaintext)) gcm.maxPlaintext) as [Hle|Hgt].
  - rewrite aes_Seal_returns by (auto using nonce_of_length).
    cbn [bind]. intros H. injection H as <-.
    apply Decrypt_sealed; auto using nonce_of_length.
  - rewrite aes_Seal_too_large by (try apply nonce_of_length; lia).
    discriminate.
Qed.

Lemma Decrypt_Encrypt_roundtrip_witness :
  encryption.Encrypt (rand.Supplies counting) hunter2 seed_phrase
    = Returns (hunter2_envelope, None)
  /\ encryption.Decrypt hunter2 hunter2_envelope = Returns seed_phrase.
Proof.
  split.
  - exact Encrypt_hunter2.
  - exact (Decrypt_Encrypt_roundtrip (rand.Supplies counting) hunter2 seed_phrase
             hunter2_envelope Encrypt_hunter2).
Defined.





(** C4.  Envelope shape: a returned envelope splits on '-' into exactly
    three components, each a valid hexadecimal string of even length; the
    first is empty and the second decodes to exactly 12 bytes. *)
Theorem Encrypt_envelope_shape
    (rnd : rand.Reader) (passphrase plaintext E : string) :
  encryption.Encrypt rnd passphrase plaintext = Returns (E, None) ->
  exists nonce data iv,
    strings.Split E "-"%byte = [[]; nonce; data]
    /\ is_hex_string [] = true
    /\ is_hex_string nonce = true
    /\ is_hex_string data = true
    /\ hex.DecodeString nonce = (iv, None)
    /\ length iv = 12%nat.
Proof.
  rewrite Encrypt_unfold. destruct rnd as [e|src]; [discriminate|].
  destruct (gcm.Seal _ (nonce_of src) plaintext []) as [data|msg]; [|discriminate].
  cbn [bind]. intros H. injection H as <-.
  exists (hex.EncodeToString (nonce_of src)), (hex.EncodeToString data), (nonce_of src).
  rewrite Split_envelope.
  repeat split; auto using EncodeToString_is_hex, Decode_EncodeToString, nonce_of_length.
Qed.

Lemma Encrypt_envelope_shape_witness :
  encryption.Encrypt (rand.Supplies counting) hunter2 seed_phrase
    = Returns (hunter2_envelope, None)
  /\ exists nonce data iv,
    strings.Split hunter2_envelope "-"%byte = [[]; nonce; data]
    /\ is_hex_string [] = true
    /\ is_hex_string nonce = true
    /\ is_hex_string data = true
    /\ hex.DecodeString nonce = (iv, None)
    /\ length iv = 12%nat.
Proof.
  split.
  - exact Encrypt_hunter2.
  - exact (Encrypt_envelope_shape (rand.Supplies counting) hunter2 seed_phrase
             hunter2_envelope Encrypt_hunter2).
Defined.

(** C5.  Encryption always derives its key with the empty salt: [deriveKey]
    is handed a salt of length zero and hands it back, the envelope prints
    it as the empty first component, and two calls with one passphrase,
    whatever their plaintexts and nonces, seal under one and the same key. *)
Theorem Encrypt_derives_with_empty_salt
    (src1 src2 : nat -> byte) (passphrase plaintext1 plaintext2 : string) :
  Z.of_nat (length plaintext1) <= gcm.maxPlaintext ->
  Z.of_nat (length plaintext2) <= gcm.maxPlaintext ->
  exists key salt,
    encryption.deriveKey passphrase [] = (key, salt)
    /\ length salt = 0%nat
    /\ key = pbkdf2.Key passphrase [] 1000 32 sha256.New
    /\ encryption.Encrypt (rand.Supplies src1) passphrase plaintext1
       = Returns (envelope salt (nonce_of src1)
                    (sealed (aesgcm key) (nonce_of src1) plaintext1), None)
    /\ encryption.Encrypt (rand.Supplies src2) passphrase plaintext2
       = Returns (envelope salt (nonce_of src2)
                    (sealed (aesgcm key) (nonce_of src2) plaintext2), None).
Proof.
  intros H1 H2.
  exists (pbkdf2.Key passphrase [] 1000 32 sha256.New), [].
  repeat split.
  - rewrite Encrypt_unfold, aes_Seal_returns by (auto using nonce_of_length).
    reflexivity.
  - rewrite Encrypt_unfold, aes_Seal_returns by (auto using nonce_of_length).
    reflexivity.
Qed.

Lemma Encrypt_derives_with_empty_salt_witness :
  exists key salt,
    encryption.deriveKey hunter2 [] = (key, salt)
    /\ length salt = 0%nat
    /\ key = pbkdf2.Key hunter2 [] 1000 32 sha256.New
    /\ encryption.Encrypt (rand.Supplies counting) hunter2 seed_phrase
       = Returns (envelope salt (nonce_of counting)
                    (sealed (aesgcm key) (nonce_of counting) seed_phrase), None)
    /\ encryption.Encrypt (rand.Supplies (fun _ => xff)) hunter2 seed_phrase
       = Returns (envelope salt (nonce_of (fun _ => xff))
                    (sealed (aesgcm key) (nonce_of (fun _ => xff)) seed_phrase), None).
Proof.
  exact (Encrypt_derives_with_empty_salt counting (fun _ => xff) hunter2
           seed_phrase seed_phrase small_plaintext small_plaintext).
Defined.




(** C8.  [Hash] is a function of its input alone, so repeated calls agree;
    it returns no error, and its digest is the SHA-256 sum of the input's
    bytes printed as exactly 64 characters, each one of [0-9a-f]. *)
Theorem Hash_digest_shape (input : string) :
  encryption.Hash input = (hex.EncodeToString (sha256.Sum256 input), None)
  /\ length (fst (encryption.Hash input)) = 64%nat
  /\ forallb isLowerHexDigit (fst (encryption.Hash input)) = true.
Proof.
  unfold encryption.Hash. cbn [fst].
  split; [reflexivity|]. split.
  - rewrite EncodeToString_length, Sum256_length. reflexivity.
  - apply EncodeToString_lower.
Qed.

Example Hash_empty :
  encryption.Hash [] =
  (lit "e3b0c44298fc1c149afbf4c8996fb92427ae41e4649b934ca495991b7852b855", None).
Proof. vm_compute. reflexivity. Qed.

(** C9.  [Decrypt] derives its key from the passphrase and the salt decoded
    from the envelope: on [hex(s)-hex(n)-hex(c)] with a 12-byte [n] its
    answer is what [Open] under the key of [(passphrase, s)] makes of [c],
    so a plaintext sealed under that key, for any salt, is recovered. *)
Theorem Decrypt_derives_from_envelope_salt
    (passphrase : string) (salt iv data plaintext : bytes) :
  length iv = 12%nat ->
  Z.of_nat (length plaintext) <= gcm.maxPlaintext ->
  encryption.Decrypt passphrase (envelope salt iv data)
  = (r <- gcm.Open (aesgcm (fst (encryption.deriveKey passphrase salt))) iv data [] ;;
     Returns (opened r))
  /\ encryption.Decrypt passphrase
       (envelope salt iv
          (sealed (aesgcm (fst (encryption.deriveKey passphrase salt))) iv plaintext))
     = Returns plaintext.
Proof.
  intros Hiv Hp. unfold encryption.deriveKey. cbn [fst]. split.
  - apply Decrypt_envelope. exact Hiv.
  - apply Decrypt_sealed; assumption.
Qed.

Lemma Decrypt_derives_from_envelope_salt_witness :
  length (nonce_of counting) = 12%nat
  /\ Z.of_nat (length seed_phrase) <= gcm.maxPlaintext
  /\ encryption.Decrypt (lit "password")
       (envelope (lit "salt") (nonce_of counting) [])
     = (r <- gcm.Open (aesgcm (fst (encryption.deriveKey (lit "password") (lit "salt"))))
               (nonce_of counting) [] [] ;;
        Returns (opened r))
  /\ encryption.Decrypt (lit "password")
       (envelope (lit "salt") (nonce_of counting)
          (sealed (aesgcm (fst (encryption.deriveKey (lit "password") (lit "salt"))))
             (nonce_of counting) seed_phrase))
     = Returns seed_phrase.
Proof.
  split; [reflexivity|]. split; [exact small_plaintext|].
  exact (Decrypt_derives_from_envelope_salt (lit "password") (lit "salt")
           (nonce_of counting) [] seed_phrase eq_refl small_plaintext).
Defined.

(** C10.  A sealed component shorter than the 16-byte tag: when the three
    components are valid hexadecimal and the nonce has 12 bytes but the third
    decodes to fewer than 16 bytes, the empty one included, [Decrypt] returns
    the empty string and does not panic. *)
Theorem Decrypt_short_ciphertext
    (passphrase ciphertext a b c : string) (salt iv data : bytes) :
  strings.Split ciphertext "-"%byte = [a; b; c] ->
  hex.DecodeString a = (salt, None) ->
  hex.DecodeString b = (iv, None) ->
  length iv = 12%nat ->
  hex.DecodeString c = (data, None) ->
  (length data < 16)%nat ->
  encryption.Decrypt passphrase ciphertext = Returns [].
Proof.
  intros Hs Ha Hb Hiv Hc Hshort.
  rewrite (Decrypt_parsed passphrase ciphertext a b c salt iv data Hs Ha Hb Hiv Hc).
  rewrite aes_Open_short by assumption. reflexivity.
Qed.

Lemma Decrypt_short_ciphertext_witness :
  encryption.Decrypt hunter2 (lit "-000102030405060708090A0B-99774f") = Returns [].
Proof.
  apply (Decrypt_short_ciphertext hunter2 (lit "-000102030405060708090A0B-99774f")
           [] (lit "000102030405060708090A0B") (lit "99774f")
           [] (nonce_of counting) (unhex "99774f"));
    first [reflexivity | vm_compute; lia].
Defined.

(** ** Further properties of the package encryption *)

Lemma bytes_eqb_neq (a b : bytes) : a <> b -> bytes_eqb a b = false.
Proof.
  intros H. destruct (bytes_eqb a b) eqn:E; [|reflexivity].
  apply bytes_eqb_eq in E. contradiction.
Qed.

(** What a call of [Encrypt] that returns an envelope went through. *)
Lemma Encrypt_returns_inv (rnd : rand.Reader) (passphrase plaintext E : string) :
  encryption.Encrypt rnd passphrase plaintext = Returns (E, None) ->
  exists src,
    rnd = rand.Supplies src
    /\ Z.of_nat (length plaintext) <= gcm.maxPlaintext
    /\ E = envelope [] (nonce_of src)
             (sealed (aesgcm (pbkdf2.Key passphrase [] 1000 32 sha256.New))
                (nonce_of src) plaintext).
Proof.
  rewrite Encrypt_unfold. destruct rnd as [e|src]; [discriminate|].
  destruct (Z_le_gt_dec (Z.of_nat (length plaintext)) gcm.maxPlaintext) as [Hle|Hgt].
  - rewrite aes_Seal_returns by (auto using nonce_of_length).
    cbn [bind]. intros H. injection H as <-. eauto.
  - rewrite aes_Seal_too_large by (try apply nonce_of_length; lia).
    discriminate.
Qed.

Lemma Encrypt_supplied (src : nat -> byte) (passphrase plaintext : string) :
  Z.of_nat (length plaintext) <= gcm.maxPlaintext ->
  encryption.Encrypt (rand.Supplies src) passphrase plaintext =
  Returns (envelope [] (nonce_of src)
             (sealed (aesgcm (pbkdf2.Key passphrase [] 1000 32 sha256.New))
                (nonce_of src) plaintext), None).
Proof.
  intros H. rewrite Encrypt_unfold.
  rewrite aes_Seal_returns by (auto using nonce_of_length). reflexivity.
Qed.

Lemma envelope_length (salt iv data : bytes) :
  length (envelope salt iv data)
  = (2 * length salt + 2 * length iv + 2 * length data + 2)%nat.
Proof.
  unfold envelope. rewrite lit_dash.
  rewrite !length_app, !EncodeToString_length. cbn [length]. lia.
Qed.

Lemma EncodeToString_inj (a b : bytes) :
  hex.EncodeToString a = hex.EncodeToString b -> a = b.
Proof.
  intros H. pose proof (Decode_EncodeToString a) as Ha.
  rewrite H, Decode_EncodeToString in Ha. congruence.
Qed.

Lemma envelope_inj (s1 n1 d1 s2 n2 d2 : bytes) :
  envelope s1 n1 d1 = envelope s2 n2 d2 -> s1 = s2 /\ n1 = n2 /\ d1 = d2.
Proof.
  intros H. pose proof (Split_envelope s1 n1 d1) as H1.
  rewrite H, Split_envelope in H1.
  injection H1 as Hs Hn Hd.
  auto using EncodeToString_inj.
Qed.

(** X1.  A returned envelope has 58 characters more than twice the bytes of
    the plaintext: an empty salt, 24 digits of nonce, two dashes, and the
    digits of the ciphertext and of the 16-byte tag. *)
Theorem Encrypt_envelope_length
    (rnd : rand.Reader) (passphrase plaintext E : string) :
  encryption.Encrypt rnd passphrase plaintext = Returns (E, None) ->
  length E = (2 * length plaintext + 58)%nat.
Proof.
  intros H. apply Encrypt_returns_inv in H.
  destruct H as (src & _ & _ & ->).
  rewrite envelope_length, aes_sealed_length, nonce_of_length. cbn [length]. lia.
Qed.

Lemma Encrypt_envelope_length_witness :
  encryption.Encrypt (rand.Supplies counting) hunter2 seed_phrase
    = Returns (hunter2_envelope, None)
  /\ length hunter2_envelope = (2 * length seed_phrase + 58)%nat.
Proof.
  split.
  - exact Encrypt_hunter2.
  - exact (Encrypt_envelope_length (rand.Supplies counting) hunter2 seed_phrase
             hunter2_envelope Encrypt_hunter2).
Defined.

(** X2.  The envelope determines the nonce and, under one passphrase, the
    plaintext: two calls of [Encrypt] that return the same envelope drew the
    same nonce and sealed plaintexts of one length, and with the same
    passphrase they sealed the same plaintext. *)
Theorem Encrypt_envelope_determines
    (src1 src2 : nat -> byte) (p1 p2 m1 m2 E : string) :
  encryption.Encrypt (rand.Supplies src1) p1 m1 = Returns (E, None) ->
  encryption.Encrypt (rand.Supplies src2) p2 m2 = Returns (E, None) ->
  nonce_of src1 = nonce_of src2
  /\ length m1 = length m2
  /\ (p1 = p2 -> m1 = m2).
Proof.
  intros H1 H2.
  apply Encrypt_returns_inv in H1. destruct H1 as (s1 & E1 & L1 & ->).
  apply Encrypt_returns_inv in H2. destruct H2 as (s2 & E2 & L2 & Henv).
  injection E1 as <-. injection E2 as <-.
  apply envelope_inj in Henv. destruct Henv as (_ & Hn & Hd).
  split; [exact Hn|]. split.
  - apply (f_equal (@length byte)) in Hd.
    rewrite !aes_sealed_length in Hd. lia.
  - intros <-. rewrite <- Hn in Hd.
    pose proof (aes_Open_sealed (pbkdf2.Key p1 [] 1000 32 sha256.New)
                  (nonce_of src1) m1 (nonce_of_length src1) L1) as O1.
    pose proof (aes_Open_sealed (pbkdf2.Key p1 [] 1000 32 sha256.New)
                  (nonce_of src1) m2 (nonce_of_length src1) L2) as O2.
    rewrite Hd, O2 in O1. congruence.
Qed.

Lemma Encrypt_envelope_determines_witness :
  nonce_of counting = nonce_of counting
  /\ length seed_phrase = length seed_phrase
  /\ (hunter2 = hunter2 -> seed_phrase = seed_phrase).
Proof.
  exact (Encrypt_envelope_determines counting counting hunter2 hunter2
           seed_phrase seed_phrase hunter2_envelope Encrypt_hunter2 Encrypt_hunter2).
Defined.

Section GcmTagMatch.

Variable g : gcm.gcm.
Hypothesis Encrypt_length :
  forall src, length (cipher.Encrypt (gcm.cipher g) src) = 16%nat.
Hypothesis nonceSize_12 : gcm.nonceSize g = 12%nat.
Hypothesis tagSize_16 : gcm.tagSize g = 16%nat.

(** With the tag that [auth] computes, [Open] returns the counter-mode
    decryption of the rest. *)
Lemma Open_tag_match (nonce ciphertext tag : bytes) :
  length nonce = 12%nat ->
  length tag = 16%nat ->
  Z.of_nat (length ciphertext) <= gcm.maxPlaintext ->
  gcm.auth g ciphertext [] (cipher.Encrypt (gcm.cipher g) (gcm.deriveCounter nonce))
    = tag ->
  gcm.Open g nonce (ciphertext ++ tag) []
  = Returns (gcm.counterCrypt g ciphertext (gcm.gcmInc32 (gcm.deriveCounter nonce)), None).
Proof.
  intros Hn Ht Hle Heq. unfold gcm.Open.
  rewrite nonceSize_12, tagSize_16, Hn. cbn [Nat.eqb negb].
  change (16 <? gcm.gcmMinimumTagSize)%nat with false. cbv iota.
  assert (E1 : (length (ciphertext ++ tag) <? 16)%nat = false)
    by (apply Nat.ltb_ge; rewrite length_app; lia).
  assert (E2 : (gcm.maxPlaintext + Z.of_nat 16 <? Z.of_nat (length (ciphertext ++ tag)))
               = false)
    by (apply Z.ltb_ge; rewrite length_app; lia).
  rewrite E1, E2. cbv zeta.
  assert (Hcut : (length (ciphertext ++ tag) - 16)%nat = length ciphertext)
    by (rewrite length_app; lia).
  rewrite Hcut.
  rewrite (firstn_app_exact _ _ eq_refl), (skipn_app_exact _ _ eq_refl).
  rewrite Heq, firstn_all2 by lia.
  rewrite bytes_eqb_refl. reflexivity.
Qed.

End GcmTagMatch.

Lemma aes_Open_tag_match (key nonce ciphertext tag : bytes) :
  length nonce = 12%nat ->
  length tag = 16%nat ->
  Z.of_nat (length ciphertext) <= gcm.maxPlaintext ->
  gcm.auth (aesgcm key) ciphertext []
    (cipher.Encrypt (gcm.cipher (aesgcm key)) (gcm.deriveCounter nonce)) = tag ->
  gcm.Open (aesgcm key) nonce (ciphertext ++ tag) []
  = Returns (gcm.counterCrypt (aesgcm key) ciphertext
               (gcm.gcmInc32 (gcm.deriveCounter nonce)), None).
Proof. apply Open_tag_match; reflexivity. Qed.

(** X3.  [Decrypt] releases a plaintext only behind the tag check.  On an
    envelope whose sealed part is a ciphertext followed by 16 bytes, it
    returns the empty string when those 16 bytes are not the GCM tag of the
    ciphertext under the key of the passphrase and the envelope's salt, and
    the counter-mode decryption of the ciphertext when they are. *)
Theorem Decrypt_checks_tag (passphrase : string) (salt iv ciphertext tag : bytes) :
  length iv = 12%nat ->
  length tag = 16%nat ->
  Z.of_nat (length ciphertext) <= gcm.maxPlaintext ->
  (gcm.auth (aesgcm (fst (encryption.deriveKey passphrase salt))) ciphertext []
     (cipher.Encrypt (gcm.cipher (aesgcm (fst (encryption.deriveKey passphrase salt))))
        (gcm.deriveCounter iv)) <> tag ->
   encryption.Decrypt passphrase (envelope salt iv (ciphertext ++ tag)) = Returns [])
  /\ (gcm.auth (aesgcm (fst (encryption.deriveKey passphrase salt))) ciphertext []
        (cipher.Encrypt (gcm.cipher (aesgcm (fst (encryption.deriveKey passphrase salt))))
           (gcm.deriveCounter iv)) = tag ->
      encryption.Decrypt passphrase (envelope salt iv (ciphertext ++ tag))
      = Returns (gcm.counterCrypt (aesgcm (fst (encryption.deriveKey passphrase salt)))
                   ciphertext (gcm.gcmInc32 (gcm.deriveCounter iv)))).
Proof.
  intros Hiv Htag Hle. rewrite !deriveKey_fst.
  rewrite Decrypt_envelope by exact Hiv. split; intros H.
  - rewrite aes_Open_tag_mismatch by assumption. reflexivity.
  - rewrite aes_Open_tag_match by assumption. reflexivity.
Qed.

Lemma Decrypt_checks_tag_witness :
  (gcm.auth (aesgcm (fst (encryption.deriveKey hunter2 []))) seed_phrase []
     (cipher.Encrypt (gcm.cipher (aesgcm (fst (encryption.deriveKey hunter2 []))))
        (gcm.deriveCounter (nonce_of counting))) <> repeat x00 16 ->
   encryption.Decrypt hunter2
     (envelope [] (nonce_of counting) (seed_phrase ++ repeat x00 16)) = Returns [])
  /\ (gcm.auth (aesgcm (fst (encryption.deriveKey hunter2 []))) seed_phrase []
        (cipher.Encrypt (gcm.cipher (aesgcm (fst (encryption.deriveKey hunter2 []))))
           (gcm.deriveCounter (nonce_of counting))) = repeat x00 16 ->
      encryption.Decrypt hunter2
        (envelope [] (nonce_of counting) (seed_phrase ++ repeat x00 16))
      = Returns (gcm.counterCrypt (aesgcm (fst (encryption.deriveKey hunter2 [])))
                   seed_phrase (gcm.gcmInc32 (gcm.deriveCounter (nonce_of counting))))).
Proof.
  exact (Decrypt_checks_tag hunter2 [] (nonce_of counting) seed_phrase (repeat x00 16)
           eq_refl eq_refl small_plaintext).
Defined.

(** ** Hexadecimal digits in upper case *)

Lemma fromHexChar_toUpperHex (c : byte) :
  hex.fromHexChar (toUpperHex c) = hex.fromHexChar c.
Proof. destruct c; reflexivity. Qed.

Lemma toUpperHex_not_hex (c : byte) :
  hex.fromHexChar c = None -> toUpperHex c = c.
Proof. destruct c; first [reflexivity | discriminate]. Qed.

Lemma toUpperHex_dash (c : byte) :
  Byte.eqb (toUpperHex c) "-"%byte = Byte.eqb c "-"%byte.
Proof. destruct c; reflexivity. Qed.

Lemma Decode_toUpperHex (s : string) :
  hex.Decode (map toUpperHex s) = hex.Decode s.
Proof.
  induction s as [|p|p q rest IH] using pairs_ind.
  - reflexivity.
  - cbn [map hex.Decode]. rewrite fromHexChar_toUpperHex.
    destruct (hex.fromHexChar p) eqn:E; [reflexivity|].
    rewrite (toUpperHex_not_hex p E). reflexivity.
  - cbn [map hex.Decode]. rewrite !fromHexChar_toUpperHex.
    destruct (hex.fromHexChar p) eqn:Ep.
    + destruct (hex.fromHexChar q) eqn:Eq.
      * rewrite IH. reflexivity.
      * rewrite (toUpperHex_not_hex q Eq). reflexivity.
    + rewrite (toUpperHex_not_hex p Ep). reflexivity.
Qed.

Lemma Split_toUpperHex (s : string) :
  strings.Split (map toUpperHex s) "-"%byte
  = map (map toUpperHex) (strings.Split s "-"%byte).
Proof.
  induction s as [|c s IH]; [reflexivity|].
  cbn [map strings.Split]. rewrite toUpperHex_dash.
  destruct (Byte.eqb c "-"%byte).
  - rewrite IH. reflexivity.
  - rewrite IH. destruct (strings.Split s "-"%byte) as [|cur more] eqn:E.
    + exfalso. exact (Split_nonempty s "-"%byte E).
    + reflexivity.
Qed.

(** X4.  [Decrypt] reads hexadecimal digits in either case: writing the
    digits [a-f] of any input in upper case changes nothing of its answer,
    so one sealed value has many envelopes. *)
Theorem Decrypt_upper_case (passphrase ciphertext : string) :
  encryption.Decrypt passphrase (map toUpperHex ciphertext)
  = encryption.Decrypt passphrase ciphertext.
Proof.
  unfold encryption.Decrypt. cbv zeta.
  rewrite Split_toUpperHex, length_map.
  set (arr := strings.Split ciphertext "-"%byte).
  rewrite !(map_nth (map toUpperHex) arr []).
  unfold hex.DecodeString. rewrite !Decode_toUpperHex. reflexivity.
Qed.

(** ** Passphrases that derive one key *)

Section KeyBlocks.

Variable h : hash.Hash.

Lemma keyBlock_zeros (key : bytes) (k : nat) :
  (length key + k <= hash.BlockSize h)%nat ->
  hmac.keyBlock h (key ++ repeat x00 k) = hmac.keyBlock h key.
Proof.
  induction k as [|k IH]; intros Hlen.
  - cbn [repeat]. rewrite app_nil_r. reflexivity.
  - cbn [repeat]. rewrite repeat_cons, app_assoc.
    rewrite keyBlock_zero_pad by (rewrite length_app, repeat_length; lia).
    apply IH. lia.
Qed.

Lemma keyBlock_long (key : bytes) :
  (hash.BlockSize h < length key)%nat ->
  (length (hash.Sum h key) <= hash.BlockSize h)%nat ->
  hmac.keyBlock h (hash.Sum h key) = hmac.keyBlock h key.
Proof.
  intros Hlong Hsum. unfold hmac.keyBlock. cbv zeta.
  assert (E1 : (hash.BlockSize h <? length (hash.Sum h key))%nat = false)
    by (apply Nat.ltb_ge; exact Hsum).
  assert (E2 : (hash.BlockSize h <? length key)%nat = true)
    by (apply Nat.ltb_lt; exact Hlong).
  rewrite E1, E2. reflexivity.
Qed.

Lemma Key_of_keyBlock (p1 p2 salt : bytes) (iter keyLen : nat) :
  hmac.keyBlock h p1 = hmac.keyBlock h p2 ->
  pbkdf2.Key p1 salt iter keyLen h = pbkdf2.Key p2 salt iter keyLen h.
Proof.
  intros H. unfold pbkdf2.Key, hmac.New. rewrite H. reflexivity.
Qed.

End KeyBlocks.

(** X5.  [deriveKey] does not see zero bytes at the end of a short
    passphrase: a passphrase followed by zero bytes, 64 bytes at most in
    all, derives the key of the passphrase itself, under every salt. *)
Theorem deriveKey_trailing_zeros (passphrase : string) (k : nat) (salt : bytes) :
  (length passphrase + k <= 64)%nat ->
  fst (encryption.deriveKey (passphrase ++ repeat x00 k) salt)
  = fst (encryption.deriveKey passphrase salt).
Proof.
  intros Hlen. rewrite !deriveKey_fst.
  apply Key_of_keyBlock. apply keyBlock_zeros. exact Hlen.
Qed.

Lemma deriveKey_trailing_zeros_witness :
  fst (encryption.deriveKey (hunter2 ++ repeat x00 57) (lit "salt"))
  = fst (encryption.deriveKey hunter2 (lit "salt")).
Proof.
  apply (deriveKey_trailing_zeros hunter2 57 (lit "salt")).
  apply Nat.leb_le. reflexivity.
Defined.

(** X6.  A passphrase of more than 64 bytes derives the same key as its own
    SHA-256 digest, taken as a 32-byte passphrase: HMAC hashes a key that is
    longer than its block.  The two passphrases are different. *)
Theorem deriveKey_long_passphrase (passphrase : string) (salt : bytes) :
  (64 < length passphrase)%nat ->
  fst (encryption.deriveKey (sha256.Sum256 passphrase) salt)
  = fst (encryption.deriveKey passphrase salt)
  /\ sha256.Sum256 passphrase <> passphrase.
Proof.
  intros Hlong. split.
  - rewrite !deriveKey_fst. apply Key_of_keyBlock.
    apply (keyBlock_long sha256.New passphrase Hlong).
    cbn [hash.Sum sha256.New]. rewrite Sum256_length.
    apply Nat.leb_le. reflexivity.
  - intros E. apply (f_equal (@length byte)) in E.
    rewrite Sum256_length in E. lia.
Qed.

Lemma deriveKey_long_passphrase_witness :
  fst (encryption.deriveKey (sha256.Sum256 (repeat "a"%byte 65)) [])
  = fst (encryption.deriveKey (repeat "a"%byte 65) [])
  /\ sha256.Sum256 (repeat "a"%byte 65) <> repeat "a"%byte 65.
Proof.
  apply (deriveKey_long_passphrase (repeat "a"%byte 65) []).
  apply Nat.ltb_lt. reflexivity.
Defined.

Lemma counterCrypt_nil (g : gcm.gcm) (counter : bytes) :
  gcm.counterCrypt g [] counter = [].
Proof. reflexivity. Qed.

(** A sealed part that is only a tag opens to the empty plaintext or not at
    all. *)
Lemma aes_Open_only_tag (key nonce tag : bytes) :
  length nonce = 12%nat ->
  length tag = 16%nat ->
  exists e, gcm.Open (aesgcm key) nonce tag [] = Returns ([], e).
Proof.
  intros Hn Ht.
  destruct (bytes_eqb
              (gcm.auth (aesgcm key) [] []
                 (cipher.Encrypt (gcm.cipher (aesgcm key)) (gcm.deriveCounter nonce)))
              tag) eqn:Et.
  - apply bytes_eqb_eq in Et. exists None.
    apply (aes_Open_tag_match key nonce [] tag Hn Ht); [|exact Et].
    apply Z.leb_le. reflexivity.
  - exists (Some errOpen).
    apply (aes_Open_tag_mismatch key nonce [] tag Hn Ht).
    intros Heq. rewrite Heq, bytes_eqb_refl in Et. discriminate.
Qed.

(** X7.  The empty plaintext is indistinguishable from a failure: the
    envelope of the empty plaintext decrypts to the empty string under every
    passphrase, the right one and all the wrong ones alike. *)
Theorem Decrypt_empty_plaintext
    (rnd : rand.Reader) (p1 p2 E : string) :
  encryption.Encrypt rnd p1 [] = Returns (E, None) ->
  encryption.Decrypt p2 E = Returns [].
Proof.
  intros H. apply Encrypt_returns_inv in H. destruct H as (src & _ & Hle & ->).
  rewrite Decrypt_envelope by apply nonce_of_length.
  rewrite sealed_parts, counterCrypt_nil, app_nil_l.
  destruct (aes_Open_only_tag (pbkdf2.Key p2 [] 1000 32 sha256.New) (nonce_of src)
              (gcm.auth (aesgcm (pbkdf2.Key p1 [] 1000 32 sha256.New)) [] []
                 (cipher.Encrypt
                    (gcm.cipher (aesgcm (pbkdf2.Key p1 [] 1000 32 sha256.New)))
                    (gcm.deriveCounter (nonce_of src))))
              (nonce_of_length src)) as [e He].
  - apply auth_length. apply aesgcm_Encrypt_length.
  - rewrite He. destruct e; reflexivity.
Qed.

Lemma Encrypt_hunter2_empty :
  encryption.Encrypt (rand.Supplies counting) hunter2 [] =
  Returns (envelope [] (nonce_of counting)
             (sealed (aesgcm (pbkdf2.Key hunter2 [] 1000 32 sha256.New))
                (nonce_of counting) []), None).
Proof. apply Encrypt_supplied. apply Z.leb_le. reflexivity. Qed.

Lemma Decrypt_empty_plaintext_witness :
  encryption.Decrypt (lit "not hunter2")
    (envelope [] (nonce_of counting)
       (sealed (aesgcm (pbkdf2.Key hunter2 [] 1000 32 sha256.New))
          (nonce_of counting) []))
  = Returns [].
Proof.
  exact (Decrypt_empty_plaintext (rand.Supplies counting) hunter2 (lit "not hunter2")
           _ Encrypt_hunter2_empty).
Defined.

(** ** The fuzz target of the round trip *)

Lemma wrongPassphrase_zero_key :
  fst (encryption.deriveKey (wrongPassphrase ++ [x00]) [])
  = fst (encryption.deriveKey wrongPassphrase []).
Proof.
  rewrite !deriveKey_fst.
  apply (Key_zero_pad sha256.New wrongPassphrase [] 1000 32).
  apply Nat.ltb_lt. reflexivity.
Qed.

(** X8.  The target of [FuzzEncryptDecryptRoundTrip] fails its wrong-key
    check on every non-empty plaintext whenever the fuzzed passphrase derives
    the key of the literal "wrong-passphrase-12345": on that literal itself,
    and on it followed by a zero byte. *)
Theorem FuzzEncryptDecryptRoundTrip_fails
    (src : nat -> byte) (passphrase plaintext : string) :
  plaintext <> [] ->
  Z.of_nat (length plaintext) <= gcm.maxPlaintext ->
  fst (encryption.deriveKey passphrase [])
  = fst (encryption.deriveKey wrongPassphrase []) ->
  encryption_test.FuzzEncryptDecryptRoundTrip (rand.Supplies src) passphrase plaintext
  = encryption_test.Fail
      "Decryption with wrong passphrase should not recover plaintext".
Proof.
  intros Hne Hle Hkey. rewrite !deriveKey_fst in Hkey.
  unfold encryption_test.FuzzEncryptDecryptRoundTrip.
  rewrite (Encrypt_supplied src passphrase plaintext Hle).
  rewrite Decrypt_sealed by (auto using nonce_of_length).
  rewrite bytes_eqb_refl. cbn [negb].
  fold wrongPassphrase.
  rewrite Decrypt_envelope by apply nonce_of_length.
  rewrite <- Hkey.
  rewrite aes_Open_sealed by (auto using nonce_of_length).
  cbn [bind opened snd fst].
  rewrite (bytes_eqb_neq plaintext [] Hne), bytes_eqb_refl. reflexivity.
Qed.

Lemma FuzzEncryptDecryptRoundTrip_fails_witness :
  encryption_test.FuzzEncryptDecryptRoundTrip (rand.Supplies counting)
    (wrongPassphrase ++ [x00]) seed_phrase
  = encryption_test.Fail
      "Decryption with wrong passphrase should not recover plaintext".
Proof.
  apply (FuzzEncryptDecryptRoundTrip_fails counting (wrongPassphrase ++ [x00])
           seed_phrase).
  - discriminate.
  - exact small_plaintext.
  - exact wrongPassphrase_zero_key.
Defined.

(** ** GetPaymailsFromMetadata *)

(** Either both sides of the equivalence fail (a panic, and [false = true])
    or both hold. *)
Ltac panics_or_returns :=
  first [ split; [intros [? ?]; discriminate | intros ?; discriminate]
        | split; [intros _; reflexivity | intros _; eexists; reflexivity] ].

(** The paymails that the metadata alone gives, before the fallback. *)
Lemma GetPaymails_metadata_part
    (md : option (list (string * spvwallet.value))) (dir fallbackPaymail : string) :
  exists found : outcome (string * string),
    (forall fb,
       spvwallet.GetPaymailsFromMetadata
         (Some {| spvwallet.Metadata := md; spvwallet.TransactionDirection := dir |}) fb
       = (f <- found ;;
          let '(senderPaymail, receiverPaymail) := f in
          if bytes_eqb dir (lit "incoming") && bytes_eqb receiverPaymail []
          then Returns (senderPaymail, fb)
          else if bytes_eqb dir (lit "outgoing") && bytes_eqb senderPaymail []
          then Returns (fb, receiverPaymail)
          else Returns (senderPaymail, receiverPaymail)))
    /\ ((exists r, found = Returns r) <->
        match md with
        | None => True
        | Some metadata => safeMetadata metadata = true
        end).
Proof.
  eexists. split.
  - intros fb. unfold spvwallet.GetPaymailsFromMetadata.
    cbn [spvwallet.Metadata spvwallet.TransactionDirection]. reflexivity.
  - destruct md as [metadata|]; [|split; eauto].
    unfold safeMetadata.
    generalize (spvwallet.index metadata (lit "sender")),
               (spvwallet.index metadata (lit "receiver")),
               (spvwallet.index metadata (lit "p2p_tx_metadata")).
    intros vs vr vp.
    destruct vs as [|s|ms|]; destruct vr as [|r|mr|];
      cbn [spvwallet.notNil spvwallet.assertString bind stringOrNil noSender andb
           bytes_eqb];
      try solve [panics_or_returns];
      try (destruct (bytes_eqb s []) eqn:Es; [|solve [panics_or_returns]]);
      (destruct vp as [|sp|mp|];
       cbn [spvwallet.notNil spvwallet.assertMap bind];
       try solve [panics_or_returns];
       destruct (spvwallet.index mp (lit "sender")) as [|s2|m2|];
       cbn [spvwallet.notNil spvwallet.assertString bind stringOrNil];
       solve [panics_or_returns]).
Qed.

(** X9.  [GetPaymailsFromMetadata] panics exactly on a type assertion that
    fails: it returns if and only if the transaction is [nil], or has no
    metadata, or its metadata holds a string or [nil] under "sender" and
    under "receiver" and, when that sender is [nil] or empty, holds [nil]
    under "p2p_tx_metadata" or a map whose "sender" is a string or [nil]. *)
Theorem GetPaymailsFromMetadata_returns_iff
    (transaction : option spvwallet.Transaction) (fallbackPaymail : string) :
  (exists r, spvwallet.GetPaymailsFromMetadata transaction fallbackPaymail = Returns r)
  <-> safeTransaction transaction = true.
Proof.
  destruct transaction as [[md dir]|];
    [|split; [reflexivity|intros _; eexists; reflexivity]].
  destruct (GetPaymails_metadata_part md dir fallbackPaymail) as (found & Hrun & Hsafe).
  rewrite Hrun. unfold safeTransaction. cbn [spvwallet.Metadata].
  assert (Hret : (exists r, found = Returns r) <->
                 (exists r, (f <- found ;;
                    let '(senderPaymail, receiverPaymail) := f in
                    if bytes_eqb dir (lit "incoming") && bytes_eqb receiverPaymail []
                    then Returns (senderPaymail, fallbackPaymail)
                    else if bytes_eqb dir (lit "outgoing") && bytes_eqb senderPaymail []
                    then Returns (fallbackPaymail, receiverPaymail)
                    else Returns (senderPaymail, receiverPaymail)) = Returns r)).
  { destruct found as [[s r]|msg]; cbn [bind].
    - split; [|eauto]. intros _.
      destruct (bytes_eqb dir (lit "incoming") && bytes_eqb r []); [eauto|].
      destruct (bytes_eqb dir (lit "outgoing") && bytes_eqb s []); eauto.
    - split; intros [r H]; discriminate H. }
  rewrite <- Hret. destruct md as [metadata|]; [exact Hsafe|].
  split; [reflexivity|]. intros _. apply Hsafe. exact I.
Qed.

Lemma GetPaymailsFromMetadata_returns_iff_example :
  spvwallet.GetPaymailsFromMetadata
    (Some {| spvwallet.Metadata := Some [(lit "sender", spvwallet.VOther)];
             spvwallet.TransactionDirection := lit "incoming" |}) (lit "me@wallet")
  = Panics "interface conversion: interface {} is not string".
Proof. reflexivity. Qed.

(** X10.  A sender at the top of the metadata takes precedence, and then the
    entry "p2p_tx_metadata" is never looked at: with a non-empty string under
    "sender" and a string or [nil] under "receiver", the function returns
    that sender whatever "p2p_tx_metadata" holds, without panic, for every
    direction and fallback. *)
Theorem GetPaymailsFromMetadata_sender_first
    (metadata : list (string * spvwallet.value)) (dir fallbackPaymail sender : string) :
  spvwallet.index metadata (lit "sender") = spvwallet.VString sender ->
  sender <> [] ->
  stringOrNil (spvwallet.index metadata (lit "receiver")) = true ->
  exists receiver,
    spvwallet.GetPaymailsFromMetadata
      (Some {| spvwallet.Metadata := Some metadata;
               spvwallet.TransactionDirection := dir |}) fallbackPaymail
    = Returns (sender, receiver).
Proof.
  intros Hs Hne Hr. unfold spvwallet.GetPaymailsFromMetadata.
  cbn [spvwallet.Metadata spvwallet.TransactionDirection].
  rewrite Hs. cbn [spvwallet.notNil spvwallet.assertString bind].
  rewrite (bytes_eqb_neq sender [] Hne).
  destruct (spvwallet.index metadata (lit "receiver")) as [|r|m|];
    try discriminate Hr;
    cbn [spvwallet.notNil spvwallet.assertString bind];
    rewrite (bytes_eqb_neq sender [] Hne), andb_false_r;
    destruct (bytes_eqb dir (lit "incoming") && _); eauto.
Qed.

Lemma GetPaymailsFromMetadata_sender_first_witness :
  exists receiver,
    spvwallet.GetPaymailsFromMetadata
      (Some {| spvwallet.Metadata :=
                 Some [(lit "sender", spvwallet.VString (lit "alice@wallet"));
                       (lit "p2p_tx_metadata", spvwallet.VOther)];
               spvwallet.TransactionDirection := lit "incoming" |})
      (lit "me@wallet")
    = Returns (lit "alice@wallet", receiver).
Proof.
  apply (GetPaymailsFromMetadata_sender_first
           [(lit "sender", spvwallet.VString (lit "alice@wallet"));
            (lit "p2p_tx_metadata", spvwallet.VOther)]
           (lit "incoming") (lit "me@wallet") (lit "alice@wallet")).
  - reflexivity.
  - discriminate.
  - reflexivity.
Defined.

(** X11.  The fallback fills one side only.  If the call with an empty
    fallback returns a pair, the call with any fallback returns that pair
    with the fallback in place of an empty receiver when the direction is
    "incoming", in place of an empty sender when it is "outgoing", and
    unchanged for every other direction; an incoming transaction without a
    sender in its metadata keeps the empty sender. *)
Theorem GetPaymailsFromMetadata_fallback
    (transaction : spvwallet.Transaction) (fallbackPaymail : string)
    (found : string * string) :
  spvwallet.GetPaymailsFromMetadata (Some transaction) [] = Returns found ->
  spvwallet.GetPaymailsFromMetadata (Some transaction) fallbackPaymail
  = Returns (withFallback (spvwallet.TransactionDirection transaction)
               fallbackPaymail found).
Proof.
  destruct transaction as [md dir]. cbn [spvwallet.TransactionDirection].
  destruct (GetPaymails_metadata_part md dir fallbackPaymail) as (fnd & Hrun & _).
  rewrite !Hrun. destruct fnd as [[s r]|msg]; cbn [bind]; [|discriminate].
  unfold withFallback.
  destruct (bytes_eqb dir (lit "incoming")) eqn:Ein;
    destruct (bytes_eqb dir (lit "outgoing")) eqn:Eout;
    destruct (bytes_eqb r []) eqn:Er;
    destruct (bytes_eqb s []) eqn:Es;
    cbn [andb];
    try (apply bytes_eqb_eq in Er; subst r);
    try (apply bytes_eqb_eq in Es; subst s);
    try (apply bytes_eqb_eq in Ein; apply bytes_eqb_eq in Eout;
         rewrite Ein in Eout; discriminate Eout);
    intros H; injection H as <-; cbn [bytes_eqb];
    rewrite ?Er, ?Es; reflexivity.
Qed.

Lemma GetPaymailsFromMetadata_fallback_witness :
  spvwallet.GetPaymailsFromMetadata
    (Some {| spvwallet.Metadata := None;
             spvwallet.TransactionDirection := lit "incoming" |}) (lit "me@wallet")
  = Returns (withFallback (lit "incoming") (lit "me@wallet") ([], [])).
Proof.
  apply (GetPaymailsFromMetadata_fallback
           {| spvwallet.Metadata := None;
              spvwallet.TransactionDirection := lit "incoming" |}
           (lit "me@wallet") ([], [])).
  reflexivity.
Defined.

(** ** The rates service *)

Section RatesFacts.

Variable float64 : Type.
Variable fetchError : Type.


Lemma GetExchangeRate_cached
    (ttl now fetchedAt : Z) (fetch : float64 + fetchError) (s : rates.Service float64)
    (rate : float64) :
  rates.exchangeRate s = Some rate ->
  rates.Since now (rates.lastFetch s) < ttl ->
  rates.GetExchangeRate ttl now fetch fetchedAt s = (s, (Some rate, None)).
Proof.
  intros Hr Hfresh.
  unfold rates.GetExchangeRate, rates.loadExchangeRate, rates.useCachedValue.
  rewrite Hr. apply Z.ltb_lt in Hfresh. rewrite Hfresh. rewrite Hr. reflexivity.
Qed.

(** X12.  Within the TTL the service answers from its cache and asks no one:
    once it holds a rate, every call of a run whose clock reads less than the
    TTL after the last fetch returns that rate without error and leaves the
    service as it is, whatever the endpoint would have answered, an error
    included. *)
Theorem GetExchangeRates_cached
    (ttl : Z) (calls : list (Z * (float64 + fetchError) * Z)) (s : rates.Service float64)
    (rate : float64) :
  rates.exchangeRate s = Some rate ->
  Forall (fun call => rates.Since (fst (fst call)) (rates.lastFetch s) < ttl) calls ->
  rates.GetExchangeRates ttl calls s
  = (s, map (fun _ => (Some rate, None)) calls).
Proof.
  intros Hr Hall. induction Hall as [|[[now fetch] fetchedAt] calls Hfresh _ IH].
  - reflexivity.
  - cbn [rates.GetExchangeRates map]. cbn [fst] in Hfresh.
    rewrite (GetExchangeRate_cached ttl now fetchedAt fetch s rate Hr Hfresh).
    rewrite IH. reflexivity.
Qed.

(** X13.  A refresh that fails hides the stale rate and keeps it: when the
    cached rate has expired and the fetch ends in an error, the call returns
    that error and no rate, and the service keeps the old rate and the time
    of its fetch, so the next call fetches again. *)
Theorem GetExchangeRate_failed_refresh
    (ttl now fetchedAt : Z) (e : fetchError) (s : rates.Service float64) (rate : float64) :
  rates.exchangeRate s = Some rate ->
  ttl <= rates.Since now (rates.lastFetch s) ->
  rates.GetExchangeRate ttl now (inr e) fetchedAt s = (s, (None, Some e))
  /\ forall now' (fetch' : float64 + fetchError) fetchedAt',
       ttl <= rates.Since now' (rates.lastFetch s) ->
       rates.GetExchangeRate ttl now' fetch' fetchedAt'
         (fst (rates.GetExchangeRate ttl now (inr e) fetchedAt s))
       = match fetch' with
         | inl rate' =>
             ({| rates.exchangeRate := Some rate'; rates.lastFetch := fetchedAt' |},
              (Some rate', None))
         | inr e' => (s, (None, Some e'))
         end.
Proof.
  intros Hr Hstale.
  assert (Hstep : forall now' (fetch' : float64 + fetchError) fetchedAt',
             ttl <= rates.Since now' (rates.lastFetch s) ->
             rates.GetExchangeRate ttl now' fetch' fetchedAt' s
             = match fetch' with
               | inl rate' =>
                   ({| rates.exchangeRate := Some rate';
                       rates.lastFetch := fetchedAt' |}, (Some rate', None))
               | inr e' => (s, (None, Some e'))
               end).
  { intros now' fetch' fetchedAt' H.
    unfold rates.GetExchangeRate, rates.loadExchangeRate, rates.useCachedValue.
    rewrite Hr. apply Z.ltb_ge in H. rewrite H.
    destruct fetch'; reflexivity. }
  split.
  - apply (Hstep now (inr e) fetchedAt Hstale).
  - intros now' fetch' fetchedAt' H.
    rewrite (Hstep now (inr e) fetchedAt Hstale). cbn [fst].
    apply Hstep. exact H.
Qed.


End RatesFacts.

Lemma GetExchangeRates_cached_witness :
  rates.GetExchangeRates (fetchError := String.string) 60
    [(10, inr "connection refused"%string, 11); (50, inl 7%nat, 51)]
    {| rates.exchangeRate := Some 3%nat; rates.lastFetch := 0 |}
  = ({| rates.exchangeRate := Some 3%nat; rates.lastFetch := 0 |},
     [(Some 3%nat, None); (Some 3%nat, None)]).
Proof.
  apply (GetExchangeRates_cached nat String.string 60
           [(10, inr "connection refused"%string, 11); (50, inl 7%nat, 51)]
           {| rates.exchangeRate := Some 3%nat; rates.lastFetch := 0 |} 3%nat).
  - reflexivity.
  - repeat constructor.
Defined.

Lemma stale_after_100 : 60 <= rates.Since 100 0.
Proof. vm_compute. discriminate. Qed.

Lemma GetExchangeRate_failed_refresh_witness :
  rates.GetExchangeRate (float64 := nat) 60 100 (inr "timeout"%string) 101
    {| rates.exchangeRate := Some 3%nat; rates.lastFetch := 0 |}
  = ({| rates.exchangeRate := Some 3%nat; rates.lastFetch := 0 |},
     (None, Some "timeout"%string)).
Proof.
  exact (proj1 (GetExchangeRate_failed_refresh nat String.string 60 100 101
                  "timeout"%string
                  {| rates.exchangeRate := Some 3%nat; rates.lastFetch := 0 |} 3%nat
                  eq_refl stale_after_100)).
Defined.

